(** * Movie recommender: feature build and similarity ranking

    A shallow embedding of [MovieRecommender] from [main.py]: the title
    index built by [__init__], [feature_engineering] (three TF-IDF blocks
    and a min-max scaled block, stacked column-wise) and
    [calculate_similarity] (lazy build, lookup, cosine scores, argsort,
    reversal and the slice [1:6]).

    Numbers: NumPy's float64 numbers are idealised as real numbers, so
    rounding is left out and the machine-epsilon guard of scikit-learn's
    zero-scale handling becomes a test against 0; the two float64 values
    that are not numbers and arise here, minus infinity and NaN, are kept,
    with the exceptions they lead to.  The last section computes the
    scaler's formula in binary64 itself.  Strings are byte strings;
    lower-casing acts on ASCII letters.  The library routines the source
    calls (TfidfVectorizer, MinMaxScaler, cosine_similarity, log1p,
    argsort) are written out here as they compute on such inputs. *)

From Stdlib Require Import Floats.
From Stdlib Require Import Reals Lra Lia String Ascii List Permutation.
From Stdlib Require Import DecimalString.
From stdpp Require Import gmap strings sorting.
Import ListNotations.

Local Open Scope string_scope.

(** ** Exceptions and results *)

(** The exceptions [calculate_similarity] can end in.  Every message
    belongs to Python's [ValueError]; [IndexError] is what an out-of-range
    subscript raises, [TypeError] what subscripting [None] raises and what
    [np.log1p] raises for an integer that no NumPy integer type holds. *)
Inductive exn : Type :=
  | ValueError (msg : string)
  | IndexError
  | TypeError.

Inductive result (A : Type) : Type :=
  | Ok (a : A)
  | Raise (e : exn).
Arguments Ok {A} a.
Arguments Raise {A} e.

(** Line 203: the error raised for a title missing from the index. *)
Definition not_found (title : string) : exn :=
  ValueError ("Movie '" ++ title ++ "' not found in the database.").

(** What [TfidfVectorizer.fit_transform] raises when no term is left. *)
Definition empty_vocabulary : exn :=
  ValueError "empty vocabulary; perhaps the documents only contain stop words".

(** What [MinMaxScaler.fit_transform] raises for an array that holds an
    infinity. *)
Definition contains_infinity : exn :=
  ValueError
    "Input X contains infinity or a value too large for dtype('float64').".

(** What [cosine_similarity] raises for an array that holds a NaN. *)
Definition contains_nan : exn := ValueError "Input contains NaN.".

(** A list comprehension whose body may raise: the first exception ends
    it. *)
Fixpoint traverse {A B : Type} (f : A -> result B) (l : list A)
  : result (list B) :=
  match l with
  | [] => Ok []
  | a :: l' =>
      match f a with
      | Raise e => Raise e
      | Ok b =>
          match traverse f l' with
          | Raise e => Raise e
          | Ok bs => Ok (b :: bs)
          end
      end
  end.

(** ** Text analysis of one field value *)

Module Text.

Definition is_upper (c : ascii) : bool :=
  (65 <=? nat_of_ascii c)%nat && (nat_of_ascii c <=? 90)%nat.

Definition lower_char (c : ascii) : ascii :=
  if is_upper c then ascii_of_nat (nat_of_ascii c + 32) else c.

(** [str.lower], the vectorizer's preprocessing step. *)
Fixpoint lower (s : string) : string :=
  match s with
  | EmptyString => EmptyString
  | String c s' => String (lower_char c) (lower s')
  end.

(** [x.split(sep)] for a one-character separator: every occurrence cuts,
    empty pieces are kept. *)
Fixpoint split (sep : ascii) (s : string) : list string :=
  match s with
  | EmptyString => [EmptyString]
  | String c s' =>
      if Ascii.eqb c sep then EmptyString :: split sep s'
      else match split sep s' with
           | [] => [String c EmptyString]
           | p :: ps => String c p :: ps
           end
  end.

(** [sep.join(pieces)]. *)
Fixpoint join (sep : ascii) (pieces : list string) : string :=
  match pieces with
  | [] => EmptyString
  | [p] => p
  | p :: ps => p ++ String sep (join sep ps)
  end.

Fixpoint contains (c : ascii) (s : string) : bool :=
  match s with
  | EmptyString => false
  | String d s' => Ascii.eqb d c || contains c s'
  end.

Definition pipe : ascii := "|"%char.

(** The tokenizer handed to the vectorizer: [lambda x: x.split('|')]. *)
Definition tokenizer (x : string) : list string := split pipe x.

Fixpoint mem (t : string) (l : list string) : bool :=
  match l with
  | [] => false
  | u :: l' => String.eqb t u || mem t l'
  end.

Section Analyzer.

(** scikit-learn's English stop list, a constant of the library. *)
Variable stop_words : list string.

(** The analyzer the vectorizer builds: lower-case, tokenize, drop the
    tokens found in the stop list (unigrams only). *)
Definition analyze (doc : string) : list string :=
  List.filter (fun w => negb (mem w stop_words)) (tokenizer (lower doc)).

(** Insertion into a strictly increasing list of terms. *)
Fixpoint insert_term (t : string) (l : list string) : list string :=
  match l with
  | [] => [t]
  | u :: l' =>
      match String.compare t u with
      | Lt => t :: l
      | Eq => l
      | Gt => u :: insert_term t l'
      end
  end.

(** The fitted vocabulary: every term of every document once, in sorted
    order; a term's position is its column. *)
Definition vocabulary (docs : list string) : list string :=
  fold_right insert_term [] (concat (map analyze docs)).

End Analyzer.

End Text.

(** ** Vectors and matrices of reals *)

Local Open Scope list_scope.
Local Open Scope R_scope.

Abbreviation vector := (list R).
Abbreviation matrix := (list (list R)).

Definition Rltb (x y : R) : bool := if Rlt_dec x y then true else false.
Definition Reqb (x y : R) : bool := if Req_dec_T x y then true else false.

Fixpoint dot (x y : vector) : R :=
  match x, y with
  | a :: x', b :: y' => a * b + dot x' y'
  | _, _ => 0
  end.

(** The Euclidean norm of a row ([row_norms]). *)
Definition norm (x : vector) : R := sqrt (dot x x).

(** [_handle_zeros_in_scale]: a zero scale is replaced by 1.  In float64
    the library takes any scale below ten machine epsilons for zero; over
    the reals, without rounding, the test is against 0 itself. *)
Definition handle_zeros_in_scale (s : R) : R := if Reqb s 0 then 1 else s.


(** [np.hstack] of two-dimensional blocks: rows are joined side by side. *)
Fixpoint hstack2 {A : Type} (X Y : list (list A)) : list (list A) :=
  match X, Y with
  | x :: X', y :: Y' => (x ++ y) :: hstack2 X' Y'
  | _, _ => []
  end.

Definition hstack {A : Type} (blocks : list (list (list A)))
  : list (list A) :=
  match blocks with
  | [] => []
  | B :: Bs => fold_left hstack2 Bs B
  end.

(** ** Arrays that hold values other than numbers *)

(** A float64 value as [np.log1p] returns it: a number, minus infinity or
    NaN. *)
Inductive float64 : Type :=
  | Num (x : R)
  | MinusInfinity
  | NaN.

(** A row and an array whose entries are numbers or NaN, written [None]:
    what is left of a float64 array once infinities are refused. *)
Abbreviation nan_vector := (list (option R)).
Abbreviation nan_matrix := (list (list (option R))).

(** An array of numbers as an array that may hold NaN. *)
Definition numeric (X : matrix) : nan_matrix := map (map Some) X.

(** The numbers of a row, unless it holds a NaN. *)
Fixpoint row_numbers (row : nan_vector) : option vector :=
  match row with
  | [] => Some []
  | c :: row' =>
      match c, row_numbers row' with
      | Some x, Some v => Some (x :: v)
      | _, _ => None
      end
  end.

(** The numbers of an array, unless it holds a NaN. *)
Fixpoint numbers (X : nan_matrix) : option matrix :=
  match X with
  | [] => Some []
  | row :: X' =>
      match row_numbers row, numbers X' with
      | Some v, Some V => Some (v :: V)
      | _, _ => None
      end
  end.

(** Arithmetic on such entries: an operation on a NaN gives NaN. *)
Definition lift2 (f : R -> R -> R) (a b : option R) : option R :=
  match a, b with
  | Some x, Some y => Some (f x y)
  | _, _ => None
  end.

(** ** TfidfVectorizer.fit_transform *)

Module Tfidf.

Section Fit.

Variable stop_words : list string.
Variable docs : list string.

Definition vocab : list string := Text.vocabulary stop_words docs.

(** Term frequency: occurrences of [t] among the document's tokens. *)
Definition term_count (t : string) (doc : string) : nat :=
  List.length (List.filter (String.eqb t) (Text.analyze stop_words doc)).

(** Document frequency: how many documents contain [t]. *)
Definition document_frequency (t : string) : nat :=
  List.length
    (List.filter (fun d => Text.mem t (Text.analyze stop_words d)) docs).

(** Smoothed inverse document frequency. *)
Definition idf (t : string) : R :=
  ln ((1 + INR (List.length docs)) / (1 + INR (document_frequency t))) + 1.

Definition weighted_row (doc : string) : vector :=
  map (fun t => INR (term_count t doc) * idf t) vocab.

(** Row-wise L2 normalisation; a row of squared sum 0 is left as it is. *)
Definition normalize_row (row : vector) : vector :=
  if Reqb (dot row row) 0 then row
  else map (fun x => x / sqrt (dot row row)) row.

Definition fit_transform : result matrix :=
  match vocab with
  | [] => Raise empty_vocabulary
  | _ :: _ => Ok (map (fun d => normalize_row (weighted_row d)) docs)
  end.

End Fit.

End Tfidf.

(** ** MinMaxScaler.fit_transform *)

Module MinMax.

Definition column (j : nat) (X : matrix) : vector :=
  map (fun row => nth j row 0) X.

Definition minimum (v : vector) : R :=
  match v with
  | [] => 0
  | x :: v' => fold_left Rmin v' x
  end.

Definition maximum (v : vector) : R :=
  match v with
  | [] => 0
  | x :: v' => fold_left Rmax v' x
  end.

Section Fit.

Variable X : matrix.

Definition n_features : nat := List.length (hd [] X).

Definition data_min : vector :=
  map (fun j => minimum (column j X)) (seq 0 n_features).

Definition data_max : vector :=
  map (fun j => maximum (column j X)) (seq 0 n_features).

(** [data_range = data_max - data_min]. *)
Definition data_range : vector :=
  map (fun j => nth j data_max 0 - nth j data_min 0) (seq 0 n_features).

(** [scale_ = (1 - 0) / handle_zeros(data_range)]. *)
Definition scale_ : vector :=
  map (fun r => (1 - 0) / handle_zeros_in_scale r) data_range.

(** [min_ = 0 - data_min * scale_]. *)
Definition min_ : vector :=
  map (fun j => 0 - nth j data_min 0 * nth j scale_ 0) (seq 0 n_features).

(** [X * scale_ + min_], broadcast over the rows. *)
Definition transform_row (row : vector) : vector :=
  map (fun j => nth j row 0 * nth j scale_ 0 + nth j min_ 0)
      (seq 0 n_features).

Definition fit_transform : matrix := map transform_row X.

End Fit.

End MinMax.

(** The same scaler on an array as the source hands it over, which may
    hold minus infinity and NaN.  The input check refuses an infinity and
    lets NaN pass; the minimum and the maximum of a column are taken over
    its numbers ([np.nanmin], [np.nanmax]) and are NaN when it has none;
    the arithmetic carries NaN along. *)
Module NanMinMax.

Definition check_cell (c : float64) : result (option R) :=
  match c with
  | Num x => Ok (Some x)
  | NaN => Ok None
  | MinusInfinity => Raise contains_infinity
  end.

(** [check_array] as the scaler calls it: rows in order, entries in
    order. *)
Definition check_array (X : list (list float64)) : result nan_matrix :=
  traverse (traverse check_cell) X.

Definition column (j : nat) (X : nan_matrix) : nan_vector :=
  map (fun row => nth j row None) X.

(** The numbers of a column, NaN left out. *)
Fixpoint present (col : nan_vector) : vector :=
  match col with
  | [] => []
  | Some x :: col' => x :: present col'
  | None :: col' => present col'
  end.

Definition nanmin (col : nan_vector) : option R :=
  match present col with
  | [] => None
  | v => Some (MinMax.minimum v)
  end.

Definition nanmax (col : nan_vector) : option R :=
  match present col with
  | [] => None
  | v => Some (MinMax.maximum v)
  end.

Section Fit.

Variable X : nan_matrix.

Definition n_features : nat := List.length (hd [] X).

Definition data_min : nan_vector :=
  map (fun j => nanmin (column j X)) (seq 0 n_features).

Definition data_max : nan_vector :=
  map (fun j => nanmax (column j X)) (seq 0 n_features).

Definition data_range : nan_vector :=
  map (fun j => lift2 Rminus (nth j data_max None) (nth j data_min None))
      (seq 0 n_features).

(** A NaN range is no zero: it is left as it is. *)
Definition scale_ : nan_vector :=
  map (fun r => lift2 Rdiv (Some (1 - 0)) (option_map handle_zeros_in_scale r))
      data_range.

Definition min_ : nan_vector :=
  map (fun j =>
         lift2 Rminus (Some 0)
           (lift2 Rmult (nth j data_min None) (nth j scale_ None)))
      (seq 0 n_features).

Definition transform_row (row : nan_vector) : nan_vector :=
  map (fun j =>
         lift2 Rplus (lift2 Rmult (nth j row None) (nth j scale_ None))
           (nth j min_ None))
      (seq 0 n_features).

Definition transform : nan_matrix := map transform_row X.

End Fit.

Definition fit_transform (X : list (list float64)) : result nan_matrix :=
  match check_array X with
  | Raise e => Raise e
  | Ok X' => Ok (transform X')
  end.

End NanMinMax.

(** ** sklearn.metrics.pairwise.cosine_similarity *)

(** [normalize]: each row divided by its norm, a zero norm counting as 1. *)
Definition normalize (x : vector) : vector :=
  map (fun a => a / handle_zeros_in_scale (norm x)) x.

Definition cosine_similarity (X Y : matrix) : matrix :=
  map (fun x => map (fun y => dot (normalize x) (normalize y)) Y) X.

(** ** numpy argsort, reversal and slicing *)

Section Argsort.

Context {A : Type} (ltb : A -> A -> bool) (d : A).
Variable v : list A.

(** One step of an insertion sort: index [i] moves left past every index
    whose key is greater. *)
Fixpoint insert_index (i : nat) (sorted : list nat) : list nat :=
  match sorted with
  | [] => [i]
  | j :: rest =>
      if ltb (nth i v d) (nth j v d) then i :: sorted
      else j :: insert_index i rest
  end.

Definition argsort_by : list nat :=
  fold_left (fun acc i => insert_index i acc) (seq 0 (List.length v)) [].

End Argsort.

(** [scores.argsort()]: the indices in ascending order of score.  NumPy's
    default kind is not stable: where the indices of equal scores go is
    left to the library.  This definition places them by insertion, which
    keeps equal scores in index order.  The general properties below use
    of it only that the result is a permutation of the indices in
    ascending order of score; the examples on two equal rows use its
    order on two equal scores. *)
Definition argsort (v : vector) : list nat := argsort_by Rltb 0 v.

(** [l[start:stop]] for [0 <= start <= stop]; never out of range. *)
Definition slice {A : Type} (start stop : nat) (l : list A) : list A :=
  firstn (stop - start) (skipn start l).

(** ** The catalog *)

(** [Movie]: the attributes the recommender reads.  [release_year] is the
    year of the parsed [release_date]; the three float attributes are
    numbers; [vote_count] is any Python integer. *)
Record Movie : Type := {
  title : string;
  genres : string;
  keywords : string;
  companies : string;
  popularity : R;
  release_year : Z;
  runtime : R;
  cast : string;
  vote_count : Z;
  vote_average : R
}.

(** [feature_matrix] is [None] until the build has stored an array; the
    array may hold NaN. *)
Record MovieRecommender : Type := {
  movies : list Movie;
  feature_matrix : option nan_matrix;
  movie_indices : gmap string nat
}.

Definition enumerate {A : Type} (l : list A) : list (nat * A) :=
  combine (seq 0 (List.length l)) l.

(** The dict comprehension of [__init__]: entries are stored in list order,
    a later entry replacing an earlier one with the same key. *)
Definition title_index (ms : list Movie) : gmap string nat :=
  fold_left (fun d im => <[title (snd im) := fst im]> d) (enumerate ms) ∅.

(** [MovieRecommender.__init__]. *)
Definition init (ms : list Movie) : MovieRecommender :=
  {| movies := ms; feature_matrix := None; movie_indices := title_index ms |}.

(** The logarithm of [1 + x], for [x] above -1. *)
Definition log1p (x : R) : R := ln (1 + x).

(** The float64 [np.log1p] has for an integer: minus infinity at -1 and
    NaN below -1 (NumPy warns and goes on). *)
Definition log1p_value (v : Z) : float64 :=
  if (v <? -1)%Z then NaN
  else if (v =? -1)%Z then MinusInfinity
  else Num (log1p (IZR v)).

(** [np.log1p] on a Python integer.  NumPy takes it as an int64, from 2^63
    on as a uint64; an integer outside both ranges stays a Python object,
    which has no [log1p]: TypeError. *)
Definition np_log1p (v : Z) : result float64 :=
  if ((v <? - 2 ^ 63) || (2 ^ 64 <=? v))%Z then Raise TypeError
  else Ok (log1p_value v).

(** Lines 172-178: the five continuous attributes of one movie, before
    scaling. *)
Definition continuous_values (current_year : Z) (m : Movie)
  : result (list float64) :=
  match np_log1p (vote_count m) with
  | Raise e => Raise e
  | Ok log_votes =>
      Ok [ Num (IZR (current_year - release_year m));
           Num (runtime m);
           Num (popularity m);
           Num (vote_average m);
           log_votes ]
  end.

(** The same five attributes as real numbers, for a movie whose vote
    count is not negative. *)
Definition continuous_row (current_year : Z) (m : Movie) : vector :=
  [ IZR (current_year - release_year m);
    runtime m;
    popularity m;
    vote_average m;
    log1p (IZR (vote_count m)) ].

(** The assignment [self.feature_matrix = fm]. *)
Definition set_feature_matrix (self : MovieRecommender) (fm : nan_matrix)
  : MovieRecommender :=
  {| movies := movies self;
     feature_matrix := Some fm;
     movie_indices := movie_indices self |}.

Section Recommender.

(** scikit-learn's English stop list. *)
Variable stop_words : list string.

(** The year read from the clock when the matrix is built. *)
Variable current_year : Z.

(** Lines 170-180: the array of the continuous attributes, row by row
    (the first [np.log1p] that raises ends it), then the scaler. *)
Definition continuous_features (ms : list Movie) : result nan_matrix :=
  match traverse (continuous_values current_year) ms with
  | Raise e => Raise e
  | Ok X => NanMinMax.fit_transform X
  end.

(** The matrix [feature_engineering] computes, or the exception it ends
    in: that of the first vectorizer fit that raises, else that of
    [np.log1p], else that of the scaler. *)
Definition build_features (ms : list Movie) : result nan_matrix :=
  match Tfidf.fit_transform stop_words (map genres ms) with
  | Raise e => Raise e
  | Ok genres_matrix =>
  match Tfidf.fit_transform stop_words (map keywords ms) with
  | Raise e => Raise e
  | Ok keywords_matrix =>
  match Tfidf.fit_transform stop_words (map cast ms) with
  | Raise e => Raise e
  | Ok cast_matrix =>
      let combined_features :=
        hstack [genres_matrix; keywords_matrix; cast_matrix] in
      match continuous_features ms with
      | Raise e => Raise e
      | Ok continuous => Ok (hstack [numeric combined_features; continuous])
      end
  end end end.

(** [feature_engineering]: on success the matrix is stored in the
    instance; an exception leaves the instance as it was. *)
Definition feature_engineering (self : MovieRecommender)
  : MovieRecommender * result unit :=
  match build_features (movies self) with
  | Raise e => (self, Raise e)
  | Ok fm => (set_feature_matrix self fm, Ok tt)
  end.

(** Line 205: the scores of every row against the target row. *)
Definition similarity_scores (fm : matrix) (target_row : vector) : vector :=
  hd [] (cosine_similarity [target_row] fm).

(** Line 207: [argsort()[::-1][1:6]]. *)
Definition most_similar_indices (scores : vector) : list nat :=
  slice 1 6 (rev (argsort scores)).

(** Line 208: the titles at the chosen indices. *)
Fixpoint titles_at (ms : list Movie) (idxs : list nat)
  : result (list string) :=
  match idxs with
  | [] => Ok []
  | i :: rest =>
      match ms !! i with
      | None => Raise IndexError
      | Some m =>
          match titles_at ms rest with
          | Raise e => Raise e
          | Ok ts => Ok (title m :: ts)
          end
      end
  end.

(** Lines 200-210, once the matrix is there.  [cosine_similarity] checks
    its two arguments, the target row and the matrix, and raises when one
    holds a NaN. *)
Definition rank (self : MovieRecommender) (target_movie_title : string)
  : result (list string) :=
  match movie_indices self !! target_movie_title with
  | None => Raise (not_found target_movie_title)
  | Some target_idx =>
      match feature_matrix self with
      | None => Raise TypeError
      | Some fm =>
          match fm !! target_idx with
          | None => Raise IndexError
          | Some target_row =>
              match row_numbers target_row, numbers fm with
              | Some x, Some Y =>
                  titles_at (movies self)
                    (most_similar_indices (similarity_scores Y x))
              | _, _ => Raise contains_nan
              end
          end
      end
  end.

(** [calculate_similarity]: the instance after the call and what the call
    returned or raised. *)
Definition calculate_similarity (self : MovieRecommender)
  (target_movie_title : string) : MovieRecommender * result (list string) :=
  match feature_matrix self with
  | None =>
      match feature_engineering self with
      | (self', Raise e) => (self', Raise e)
      | (self', Ok _) => (self', rank self' target_movie_title)
      end
  | Some _ => (self, rank self target_movie_title)
  end.

End Recommender.

(** ** Notions used to state the properties *)

(** The order the insertion produces over the scores [v]: by score, equal
    scores by index. *)
Definition precedes (v : vector) (i j : nat) : Prop :=
  nth i v 0 < nth j v 0 \/ (nth i v 0 = nth j v 0 /\ (i < j)%nat).

(** Each of the three text fields leaves a term: no vectorizer fit
    raises. *)
Definition has_terms (sw : list string) (ms : list Movie) : Prop :=
  Text.vocabulary sw (map genres ms) <> [] /\
  Text.vocabulary sw (map keywords ms) <> [] /\
  Text.vocabulary sw (map cast ms) <> [].

(** An integer NumPy has an integer type for. *)
Definition fits_integer (v : Z) : Prop := (- 2 ^ 63 <= v < 2 ^ 64)%Z.

(** The feature build returns a matrix exactly when each field leaves a
    term, every vote count fits a NumPy integer and none is -1.  The
    matrix may hold NaN. *)
Definition builds (sw : list string) (ms : list Movie) : Prop :=
  has_terms sw ms /\
  List.Forall (fun m => fits_integer (vote_count m)) ms /\
  List.Forall (fun m => vote_count m <> (-1)%Z) ms.

(** The feature build returns a matrix of numbers exactly when each field
    leaves a term and no vote count is negative or beyond the NumPy
    integers. *)
Definition buildable (sw : list string) (ms : list Movie) : Prop :=
  has_terms sw ms /\
  List.Forall (fun m => (0 <= vote_count m < 2 ^ 64)%Z) ms.

(** The TF-IDF block of one field for one field value. *)
Definition tfidf_row (sw docs : list string) (doc : string) : vector :=
  Tfidf.normalize_row (Tfidf.weighted_row sw docs doc).

(** The scaled continuous block of one movie, over the reals. *)
Definition scaled_row (y : Z) (ms : list Movie) (m : Movie) : vector :=
  MinMax.transform_row (map (continuous_row y) ms) (continuous_row y m).

(** The row of one movie over the reals: the three text blocks in the
    order genres, keywords, cast, then the continuous block. *)
Definition feature_row (sw : list string) (y : Z) (ms : list Movie)
  (m : Movie) : vector :=
  ((tfidf_row sw (map genres ms) (genres m)
    ++ tfidf_row sw (map keywords ms) (keywords m))
    ++ tfidf_row sw (map cast ms) (cast m))
    ++ scaled_row y ms m.

(** The five attributes of one movie as the scaler's input check leaves
    them: the logarithm of a vote count below -1 is NaN. *)
Definition continuous_cells (y : Z) (m : Movie) : nan_vector :=
  [ Some (IZR (y - release_year m));
    Some (runtime m);
    Some (popularity m);
    Some (vote_average m);
    if (vote_count m <? -1)%Z then None
    else Some (log1p (IZR (vote_count m))) ].

(** The scaled continuous block of one movie, NaN kept. *)
Definition scaled_cells (y : Z) (ms : list Movie) (m : Movie) : nan_vector :=
  NanMinMax.transform_row (map (continuous_cells y) ms) (continuous_cells y m).

(** The row of one movie in the stored matrix. *)
Definition feature_cells (sw : list string) (y : Z) (ms : list Movie)
  (m : Movie) : nan_vector :=
  map Some ((tfidf_row sw (map genres ms) (genres m)
             ++ tfidf_row sw (map keywords ms) (keywords m))
             ++ tfidf_row sw (map cast ms) (cast m))
  ++ scaled_cells y ms m.

(** What holds of every instance made by [init] and used through its
    methods: the index is the one of its movies, and a stored matrix is
    one the build produced. *)
Definition consistent (sw : list string) (self : MovieRecommender) : Prop :=
  movie_indices self = title_index (movies self) /\
  forall fm, feature_matrix self = Some fm ->
             exists y, build_features sw y (movies self) = Ok fm.

(** Two movies that differ at most in title and companies, the two
    attributes the feature build does not read. *)
Definition same_features (m m' : Movie) : Prop :=
  genres m = genres m' /\ keywords m = keywords m' /\ cast m = cast m' /\
  popularity m = popularity m' /\ release_year m = release_year m' /\
  runtime m = runtime m' /\ vote_count m = vote_count m' /\
  vote_average m = vote_average m'.

(** ** Sample data *)

(** An excerpt of scikit-learn's English stop list, enough to run the
    examples below. *)
Definition stop_words_sample : list string :=
  ["a"; "about"; "above"; "after"; "all"; "an"; "and"; "are"; "as"; "at";
   "be"; "but"; "by"; "for"; "from"; "in"; "is"; "it"; "of"; "on"; "or";
   "other"; "the"; "to"; "up"; "with"]%string.

(** The three movies of [tests/test_recommender.py]. *)
Definition inception : Movie :=
  {| title := "Inception"; genres := "Action|Adventure";
     keywords := "Dream|Spy"; companies := "Warner Bros";
     popularity := 98 / 10; release_year := 2010; runtime := 148;
     cast := "Leonardo DiCaprio"; vote_count := 20000;
     vote_average := 88 / 10 |}.

Definition the_matrix : Movie :=
  {| title := "The Matrix"; genres := "Action|Sci-Fi";
     keywords := "Hacker|Future"; companies := "Warner Bros";
     popularity := 95 / 10; release_year := 1999; runtime := 136;
     cast := "Keanu Reeves"; vote_count := 15000;
     vote_average := 87 / 10 |}.

Definition the_godfather : Movie :=
  {| title := "The Godfather"; genres := "Crime|Drama";
     keywords := "Mafia|Family"; companies := "Paramount Pictures";
     popularity := 92 / 10; release_year := 1972; runtime := 175;
     cast := "Marlon Brando"; vote_count := 12000;
     vote_average := 92 / 10 |}.

Definition test_catalog : list Movie := [inception; the_matrix; the_godfather].

(** A movie whose only keyword is on the stop list. *)
Definition up : Movie :=
  {| title := "Up"; genres := "Animation|Adventure"; keywords := "Up";
     companies := "Pixar"; popularity := 90 / 10; release_year := 2009;
     runtime := 96; cast := "Ed Asner"; vote_count := 18000;
     vote_average := 79 / 10 |}.

(** [inception] listed again under another title. *)
Definition reissue (t : string) : Movie :=
  {| title := t; genres := genres inception; keywords := keywords inception;
     companies := companies inception; popularity := popularity inception;
     release_year := release_year inception; runtime := runtime inception;
     cast := cast inception; vote_count := vote_count inception;
     vote_average := vote_average inception |}.

Definition twin_catalog : list Movie := [inception; reissue "Inception (IMAX)"].

(** A catalog with one title twice: [inception]'s attributes under the
    title of [the_matrix], listed last. *)
Definition duplicate_catalog : list Movie :=
  [inception; the_matrix; reissue "The Matrix"].

(** * The loader and the menu *)

(** ** clean_text *)

(** The ASCII characters [str.split()] treats as whitespace: tab, line
    feed, vertical tab, form feed, carriage return, the four separators
    28-31 and the space.  Whitespace outside ASCII is not modelled. *)
Definition is_space (c : ascii) : bool :=
  ((9 <=? nat_of_ascii c)%nat && (nat_of_ascii c <=? 13)%nat)
  || ((28 <=? nat_of_ascii c)%nat && (nat_of_ascii c <=? 32)%nat).

(** [s.split()] without a separator: the maximal runs of characters that
    are not whitespace. *)
Fixpoint words (s : string) : list string :=
  match s with
  | EmptyString => []
  | String c s' =>
      if is_space c then words s'
      else match s' with
           | EmptyString => [String c EmptyString]
           | String d _ =>
               if is_space d then String c EmptyString :: words s'
               else match words s' with
                    | [] => [String c EmptyString]
                    | w :: ws => String c w :: ws
                    end
           end
  end.

(** [clean_text]: [None] stands for a missing value (NaN). *)
Definition clean_text (text : option string) : string :=
  match text with
  | None => EmptyString
  | Some s => Text.join " "%char (words s)
  end.

(** The characters of [s] that are not whitespace, in order. *)
Fixpoint remove_spaces (s : string) : string :=
  match s with
  | EmptyString => EmptyString
  | String c s' =>
      if is_space c then remove_spaces s' else String c (remove_spaces s')
  end.

(** [tidy after_space s]: the only whitespace in [s] are single spaces,
    none directly after another space (or at the start, when
    [after_space] holds) and none at the end. *)
Fixpoint tidy (after_space : bool) (s : string) : bool :=
  match s with
  | EmptyString => negb after_space
  | String c s' =>
      if is_space c
      then Ascii.eqb c " "%char && negb after_space && tidy true s'
      else tidy false s'
  end.

Definition well_spaced (s : string) : bool :=
  match s with
  | EmptyString => true
  | _ => tidy true s
  end.

(** A string free of whitespace. *)
Fixpoint space_free (s : string) : bool :=
  match s with
  | EmptyString => true
  | String c s' => negb (is_space c) && space_free s'
  end.

(** A word: not empty and free of whitespace. *)
Definition is_word (w : string) : Prop :=
  w <> EmptyString /\ space_free w = true.

(** Occurrences of a character. *)
Fixpoint count_char (c : ascii) (s : string) : nat :=
  match s with
  | EmptyString => 0
  | String d s' => (if Ascii.eqb d c then 1 else 0) + count_char c s'
  end.

(** ** DatabaseInterface.load_data *)

(** One row of a data frame that has the ten columns [load_data] reads,
    cell by cell; [None] is a missing value (NaN).  Every cell has the
    type of its column, and the title cell holds a string. *)
Record Row : Type := {
  original_title : string;
  row_genres : option string;
  row_keywords : option string;
  row_production_companies : option string;
  row_popularity : option R;
  row_release_date : option string;
  row_runtime : option R;
  row_cast : option string;
  row_vote_count : option Z;
  row_vote_average : option R
}.

(** What [os.path.exists] and [pd.read_csv] find at a path: no file, a
    file the reader raises on, a frame with the ten columns, or a frame
    of at least one row that lacks one of them, [absent] being the first
    it lacks in the order [load_data] reads them.  A frame without rows
    counts as [Frame []] whatever its columns: no cell of it is read. *)
Inductive file : Type :=
  | Missing
  | Unreadable
  | Frame (rows : list Row)
  | Incomplete (absent : string).

(** The exceptions [load_data] ends in: the one it raises itself, the one
    of [pd.read_csv], the one of [row[...]] on a column that is not there
    and the one of [pd.to_datetime] on a date string. *)
Inductive load_exn : Type :=
  | FileNotFoundError (msg : string)
  | ReadError
  | KeyError (column : string)
  | DateParseError (date : string).

Inductive loaded (A : Type) : Type :=
  | Loaded (a : A)
  | Failed (e : load_exn).
Arguments Loaded {A} a.
Arguments Failed {A} e.

Module Database.

Record DatabaseInterface : Type := {
  data_source : string;
  movies : list Movie
}.

(** [DatabaseInterface.__init__]. *)
Definition new (source : string) : DatabaseInterface :=
  {| data_source := source; movies := [] |}.

Section Load.

(** The year of the timestamp [pd.to_datetime] parses from a date string,
    [None] when it raises. *)
Variable to_datetime_year : string -> option Z.

(** [Movie.__init__]. *)
Definition Movie_init (title genres keywords companies : string)
  (popularity : R) (release_date : string) (runtime : R) (cast : string)
  (vote_count : Z) (vote_average : R) : loaded Movie :=
  match to_datetime_year release_date with
  | None => Failed (DateParseError release_date)
  | Some year =>
      Loaded {| title := title; genres := genres; keywords := keywords;
                companies := companies; popularity := popularity;
                release_year := year; runtime := runtime; cast := cast;
                vote_count := vote_count; vote_average := vote_average |}
  end.

(** [x if pd.notna(x) else d]. *)
Definition notna_or {A : Type} (d : A) (x : option A) : A :=
  match x with
  | Some a => a
  | None => d
  end.

(** The [Movie(...)] call of the list comprehension, for one row. *)
Definition movie_of_row (row : Row) : loaded Movie :=
  Movie_init (original_title row)
    (clean_text (row_genres row))
    (clean_text (row_keywords row))
    (clean_text (row_production_companies row))
    (notna_or 0 (row_popularity row))
    (notna_or "1900-01-01"%string (row_release_date row))
    (notna_or 0 (row_runtime row))
    (clean_text (row_cast row))
    (notna_or 0%Z (row_vote_count row))
    (notna_or 0 (row_vote_average row)).

(** The list comprehension over the rows: the first row that raises ends
    it. *)
Fixpoint movies_of_rows (rows : list Row) : loaded (list Movie) :=
  match rows with
  | [] => Loaded []
  | row :: rest =>
      match movie_of_row row with
      | Failed e => Failed e
      | Loaded m =>
          match movies_of_rows rest with
          | Failed e => Failed e
          | Loaded ms => Loaded (m :: ms)
          end
      end
  end.

(** [load_data]: the instance after the call and what the call returned
    or raised.  [self.movies] is assigned once the whole list is there.
    In a frame that lacks a column the first row read raises KeyError,
    before any [Movie] is made. *)
Definition load_data (fs : string -> file) (self : DatabaseInterface)
  : DatabaseInterface * loaded (list Movie) :=
  match fs (data_source self) with
  | Missing =>
      (self, Failed (FileNotFoundError
                       ("File " ++ data_source self ++ " not found.")))
  | Unreadable => (self, Failed ReadError)
  | Frame rows =>
      match movies_of_rows rows with
      | Failed e => (self, Failed e)
      | Loaded ms =>
          ({| data_source := data_source self; movies := ms |}, Loaded ms)
      end
  | Incomplete absent => (self, Failed (KeyError absent))
  end.

End Load.

End Database.

(** The date string a row hands to [Movie]: its own, or the sentinel. *)
Definition date_of_row (row : Row) : string :=
  Database.notna_or "1900-01-01"%string (row_release_date row).

(** A reader for dates written year first, four digits and a dash: a
    sample of what [pd.to_datetime] accepts, used to run the examples. *)
Definition digit_of (c : ascii) : option Z :=
  if ((48 <=? nat_of_ascii c)%nat && (nat_of_ascii c <=? 57)%nat)%bool
  then Some (Z.of_nat (nat_of_ascii c - 48))
  else None.

Definition iso_year (s : string) : option Z :=
  match s with
  | String a (String b (String c (String d (String "-" _)))) =>
      match digit_of a, digit_of b, digit_of c, digit_of d with
      | Some a, Some b, Some c, Some d =>
          Some (1000 * a + 100 * b + 10 * c + d)%Z
      | _, _, _, _ => None
      end
  | _ => None
  end.

(** Two rows of a data frame, the second with missing cells. *)
Definition inception_row : Row :=
  {| original_title := "Inception";
     row_genres := Some "Action|Adventure"%string;
     row_keywords := Some " Dream|Spy  "%string;
     row_production_companies := Some "Warner  Bros"%string;
     row_popularity := Some (98 / 10);
     row_release_date := Some "2010-07-16"%string;
     row_runtime := Some 148;
     row_cast := Some "Leonardo   DiCaprio"%string;
     row_vote_count := Some 20000%Z;
     row_vote_average := Some (88 / 10) |}.

Definition sparse_row : Row :=
  {| original_title := "Untitled";
     row_genres := None; row_keywords := None;
     row_production_companies := None; row_popularity := None;
     row_release_date := None; row_runtime := None; row_cast := None;
     row_vote_count := None; row_vote_average := None |}.

Definition bad_date_row : Row :=
  {| original_title := "Test";
     row_genres := Some "Drama"%string; row_keywords := Some "Keyword"%string;
     row_production_companies := Some "Test Company"%string;
     row_popularity := Some 5;
     row_release_date := Some "invalid_date"%string;
     row_runtime := Some 120; row_cast := Some "Actor"%string;
     row_vote_count := Some 100%Z; row_vote_average := Some (75 / 10) |}.

(** A file system with three files: a good one, one with an invalid date,
    and one without the [cast] column. *)
Definition sample_fs (path : string) : file :=
  if String.eqb path "movies.csv" then Frame [inception_row; sparse_row]
  else if String.eqb path "broken.csv" then Frame [inception_row; bad_date_row]
  else if String.eqb path "no_cast.csv" then Incomplete "cast"
  else Missing.

(** What loading ["movies.csv"] from [sample_fs] yields. *)
Definition sample_movies : list Movie :=
  [ {| title := "Inception"; genres := "Action|Adventure";
       keywords := "Dream|Spy"; companies := "Warner Bros";
       popularity := 98 / 10; release_year := 2010; runtime := 148;
       cast := "Leonardo DiCaprio"; vote_count := 20000;
       vote_average := 88 / 10 |};
    {| title := "Untitled"; genres := ""; keywords := "";
       companies := ""; popularity := 0; release_year := 1900;
       runtime := 0; cast := ""; vote_count := 0;
       vote_average := 0 |} ].

(** ** Interface *)

(** What the session writes: [print(s)] and the prompt of [input(s)]. *)
Inductive output : Type :=
  | Print (s : string)
  | Prompt (s : string).

(** How [run] ends: the [break] after choice 2, the [EOFError] of
    [input] when no line is left, or an exception it does not catch. *)
Inductive ending : Type :=
  | Exit
  | EOFError
  | Uncaught (e : exn).

(** What a typed choice amounts to. *)
Inductive choice : Type :=
  | Recommend
  | Quit
  | Invalid.

Definition LF : string := String "010"%char EmptyString.

(** [str(i)] for a natural number. *)
Definition decimal (i : nat) : string :=
  NilEmpty.string_of_uint (Nat.to_uint i).

Module Menu.

Definition frontscreen : list output :=
  [ Print (LF ++ "Welcome to the Movie Recommendation System!");
    Print "1. Get Movie Recommendations";
    Print "2. Exit" ]%string.

(** [recommendation_screen]: a heading, then the titles numbered from 1. *)
Definition recommendation_screen (recommendations : list string)
  : list output :=
  Print (LF ++ "We recommend the following movies:")%string
  :: map (fun im => Print (decimal (fst im) ++ ". " ++ snd im)%string)
       (combine (seq 1 (List.length recommendations)) recommendations).

Definition exit_screen : list output :=
  [ Print (LF ++ "Thank you for using the Movie Recommendation System. Goodbye!")%string ].

Definition choice_prompt : output :=
  Prompt (LF ++ "Please enter your choice (1 or 2): ")%string.

Definition title_prompt : output :=
  Prompt (LF ++ "Enter the title of the movie: ")%string.

Definition invalid_input : output :=
  Print "Invalid input. Please enter 1 or 2.".

Section Run.

Variable stop_words : list string.
Variable current_year : Z.

(** Python's [int] on a line of input, [None] when it raises
    ValueError. *)
Variable int : string -> option Z.

(** Lines 250-257: a line that is not an integer, or an integer other
    than 1 and 2, is invalid. *)
Definition read_choice (line : string) : choice :=
  match int line with
  | None => Invalid
  | Some user_choice =>
      if (user_choice =? 1)%Z then Recommend
      else if (user_choice =? 2)%Z then Quit
      else Invalid
  end.

(** [run] on the lines the user types: what is written, the recommender
    at the end, and how the loop ended. *)
Fixpoint run (self : MovieRecommender) (inputs : list string)
  : list output * MovieRecommender * ending :=
  match inputs with
  | [] => (frontscreen ++ [choice_prompt], self, EOFError)
  | line :: rest =>
      match read_choice line with
      | Invalid =>
          let '(out, final, e) := run self rest in
          (frontscreen ++ [choice_prompt; invalid_input] ++ out, final, e)
      | Quit => (frontscreen ++ [choice_prompt] ++ exit_screen, self, Exit)
      | Recommend =>
          match rest with
          | [] =>
              (frontscreen ++ [choice_prompt; title_prompt], self, EOFError)
          | movie :: rest' =>
              match calculate_similarity stop_words current_year self movie
              with
              | (self', Ok recommendations) =>
                  let '(out, final, e) := run self' rest' in
                  (frontscreen ++ [choice_prompt; title_prompt]
                   ++ recommendation_screen recommendations ++ out,
                   final, e)
              | (self', Raise (ValueError msg)) =>
                  let '(out, final, e) := run self' rest' in
                  (frontscreen ++ [choice_prompt; title_prompt]
                   ++ [Print ("Error: " ++ msg)%string] ++ out,
                   final, e)
              | (self', Raise e) =>
                  (frontscreen ++ [choice_prompt; title_prompt], self',
                   Uncaught e)
              end
          end
      end
  end.

End Run.

End Menu.

(** [int] on ASCII numerals: whitespace around, an optional sign, digits
    with single underscores between them.  A sample of Python's [int],
    used to run the examples. *)
Fixpoint lstrip (s : string) : string :=
  match s with
  | EmptyString => EmptyString
  | String c s' => if is_space c then lstrip s' else s
  end.

Fixpoint digits (acc : Z) (after_digit : bool) (s : string)
  : option (Z * string) :=
  match s with
  | EmptyString => if after_digit then Some (acc, s) else None
  | String c s' =>
      match digit_of c with
      | Some d => digits (10 * acc + d)%Z true s'
      | None =>
          if Ascii.eqb c "_"%char
          then if after_digit then digits acc false s' else None
          else if after_digit then Some (acc, s) else None
      end
  end.

Definition int_ascii (s : string) : option Z :=
  let body := lstrip s in
  let signed :=
    match body with
    | String "-" r => ((-1)%Z, r)
    | String "+" r => (1%Z, r)
    | _ => (1%Z, body)
    end in
  match digits 0 false (snd signed) with
  | Some (v, rest) =>
      match remove_spaces rest with
      | EmptyString => Some (fst signed * v)%Z
      | _ => None
      end
  | None => None
  end.

(** An instance holding a hand-made matrix of two orthogonal rows. *)
Definition prebuilt : MovieRecommender :=
  {| movies := [inception; the_matrix];
     feature_matrix := Some (numeric [[1; 0]; [0; 1]]);
     movie_indices := title_index [inception; the_matrix] |}.

(** The part of a query round written after the two prompts. *)
Definition round_output (r : result (list string)) : list output :=
  match r with
  | Ok recommendations => Menu.recommendation_screen recommendations
  | Raise (ValueError msg) => [Print ("Error: " ++ msg)%string]
  | Raise _ => []
  end.

(** * The scaler in binary64 *)

(** [MinMaxScaler.fit_transform] on one column of numbers, computed in
    IEEE binary64 as NumPy computes it, rounding and the machine-epsilon
    guard included. *)
Module MinMax64.

(** The machine epsilon of float64. *)
Definition eps : float := 0x1p-52%float.

(** [_handle_zeros_in_scale]: a scale below ten machine epsilons is
    replaced by 1. *)
Definition handle_zeros_in_scale (s : float) : float :=
  if PrimFloat.ltb s (10 * eps)%float then 1%float else s.

Definition minimum (v : list float) : float :=
  match v with
  | [] => 0%float
  | x :: v' => fold_left (fun a b => if PrimFloat.ltb b a then b else a) v' x
  end.

Definition maximum (v : list float) : float :=
  match v with
  | [] => 0%float
  | x :: v' => fold_left (fun a b => if PrimFloat.ltb a b then b else a) v' x
  end.

Section Fit.

Variable X : list float.

Definition data_range : float := (maximum X - minimum X)%float.

Definition scale_ : float :=
  ((1 - 0) / handle_zeros_in_scale data_range)%float.

Definition min_ : float := (0 - minimum X * scale_)%float.

(** [X * scale_ + min_]. *)
Definition fit_transform : list float :=
  map (fun x => (x * scale_ + min_)%float) X.

End Fit.

End MinMax64.

(** * Properties *)

(** ** The title index *)

Lemma enumerate_from_snoc {A} (l : list A) (x : A) (k : nat) :
  combine (seq k (List.length (l ++ [x]))) (l ++ [x])
  = combine (seq k (List.length l)) l ++ [((k + List.length l)%nat, x)].
Proof.
  revert k. induction l as [|a l IH]; intros k; simpl.
  - by rewrite Nat.add_0_r.
  - rewrite IH. by rewrite Nat.add_succ_r.
Qed.

Lemma title_index_snoc (ms : list Movie) (m : Movie) :
  title_index (ms ++ [m]) = <[title m := List.length ms]> (title_index ms).
Proof.
  unfold title_index, enumerate.
  rewrite enumerate_from_snoc, fold_left_app. reflexivity.
Qed.

Lemma title_index_None (ms : list Movie) (t : string) :
  title_index ms !! t = None <-> ~ In t (map title ms).
Proof.
  induction ms as [|m ms IH] using rev_ind.
  - split; [intros _ []|reflexivity].
  - rewrite title_index_snoc, map_app, in_app_iff. simpl.
    destruct (decide (title m = t)) as [->|Hne].
    + rewrite lookup_insert_eq. split; [discriminate|]. intros H; exfalso; apply H; auto.
    + rewrite lookup_insert_ne by done. rewrite IH. tauto.
Qed.

Lemma title_index_Some (ms : list Movie) (t : string) (i : nat) :
  title_index ms !! t = Some i <->
  (exists m, ms !! i = Some m /\ title m = t) /\
  (forall j m, (i < j)%nat -> ms !! j = Some m -> title m <> t).
Proof.
  revert i. induction ms as [|m ms IH] using rev_ind; intros i.
  - split; [discriminate|]. intros [[m [H _]] _]. discriminate.
  - rewrite title_index_snoc.
    destruct (decide (title m = t)) as [Heq|Hne].
    + rewrite <- Heq, lookup_insert_eq. split.
      * intros [= <-]. split.
        -- exists m. split; [|done]. by rewrite list_lookup_middle.
        -- intros j m' Hlt Hj. apply lookup_lt_Some in Hj.
           rewrite length_app in Hj. simpl in Hj. lia.
      * intros [[m' [Hi Ht]] Hlast]. f_equal.
        pose proof (lookup_lt_Some _ _ _ Hi) as Hlen.
        rewrite length_app in Hlen; simpl in Hlen.
        destruct (decide (i = List.length ms)) as [|Hn]; [done|].
        exfalso. apply (Hlast (List.length ms) m); [lia| |done].
        by rewrite list_lookup_middle.
    + rewrite lookup_insert_ne by done. rewrite IH. split.
      * intros [[m' [Hi Ht]] Hlast]. split.
        -- exists m'. split; [|done]. by apply lookup_app_l_Some.
        -- intros j m'' Hlt Hj.
           destruct (decide (j < List.length ms)%nat) as [Hjl|Hjl].
           ++ rewrite lookup_app_l in Hj by done. eauto.
           ++ pose proof (lookup_lt_Some _ _ _ Hj) as Hlen.
              rewrite length_app in Hlen; simpl in Hlen.
              assert (j = List.length ms) as -> by lia.
              rewrite list_lookup_middle in Hj by done. by injection Hj as <-.
      * intros [[m' [Hi Ht]] Hlast].
        assert (i < List.length ms)%nat as Hil.
        { pose proof (lookup_lt_Some _ _ _ Hi) as Hlen.
          rewrite length_app in Hlen; simpl in Hlen.
          destruct (decide (i = List.length ms)) as [->|]; [|lia].
          rewrite list_lookup_middle in Hi by done. injection Hi as <-. done. }
        split.
        -- exists m'. split; [|done]. by rewrite lookup_app_l in Hi.
        -- intros j m'' Hlt Hj. apply (Hlast j m'' Hlt).
           by apply lookup_app_l_Some.
Qed.

(** ** argsort *)

Lemma Rltb_lt (x y : R) : Rltb x y = true <-> x < y.
Proof. unfold Rltb. destruct (Rlt_dec x y); split; auto; discriminate. Qed.

Lemma Rltb_ge (x y : R) : Rltb x y = false <-> y <= x.
Proof.
  unfold Rltb. destruct (Rlt_dec x y); split; auto; try discriminate; lra.
Qed.

Lemma Reqb_eq (x y : R) : Reqb x y = true <-> x = y.
Proof. unfold Reqb. destruct (Req_dec_T x y); split; auto; discriminate. Qed.

Section ArgsortFacts.

Variable v : vector.

Lemma precedes_le (i j : nat) : precedes v i j -> nth i v 0 <= nth j v 0.
Proof. intros [H|[H _]]; lra. Qed.

Lemma insert_index_perm (i : nat) (l : list nat) :
  Permutation (insert_index Rltb 0 v i l) (i :: l).
Proof.
  induction l as [|j l IH]; simpl; [done|].
  destruct (Rltb _ _); [done|].
  rewrite IH. apply perm_swap.
Qed.

Lemma insert_index_sorted (i : nat) (l : list nat) :
  StronglySorted (precedes v) l ->
  Forall (fun j => (j < i)%nat) l ->
  StronglySorted (precedes v) (insert_index Rltb 0 v i l).
Proof.
  induction l as [|j l IH]; simpl; intros Hs Hlt.
  - repeat constructor.
  - apply StronglySorted_cons in Hs as [Hj Hs].
    apply Forall_cons in Hlt as [Hji Hlt].
    destruct (Rltb (nth i v 0) (nth j v 0)) eqn:E.
    + apply Rltb_lt in E. constructor.
      * by apply StronglySorted_cons.
      * constructor; [by left|].
        eapply Forall_impl; [exact Hj|]. intros x Hx. left.
        apply precedes_le in Hx. lra.
    + apply Rltb_ge in E. constructor; [by apply IH|].
      rewrite (insert_index_perm i l). constructor; [|done].
      destruct (Rle_lt_or_eq_dec _ _ E) as [H|H]; [by left|right; split; [done|lia]].
Qed.

Lemma argsort_prefix (n : nat) :
  Permutation
    (fold_left (fun acc i => insert_index Rltb 0 v i acc) (seq 0 n) [])
    (seq 0 n) /\
  StronglySorted (precedes v)
    (fold_left (fun acc i => insert_index Rltb 0 v i acc) (seq 0 n) []).
Proof.
  induction n as [|n [IHp IHs]].
  - split; constructor.
  - rewrite seq_S, fold_left_app. simpl. split.
    + rewrite insert_index_perm, IHp. symmetry.
      rewrite Permutation_app_comm. done.
    + apply insert_index_sorted; [done|].
      rewrite IHp. apply Forall_forall. intros x Hx.
      apply list_elem_of_In, in_seq in Hx. lia.
Qed.

Lemma argsort_perm : Permutation (argsort v) (seq 0 (List.length v)).
Proof. apply argsort_prefix. Qed.

Lemma argsort_sorted : StronglySorted (precedes v) (argsort v).
Proof. apply argsort_prefix. Qed.

Lemma argsort_length : List.length (argsort v) = List.length v.
Proof. rewrite argsort_perm. apply length_seq. Qed.

End ArgsortFacts.

Lemma StronglySorted_rev {A} (R : A -> A -> Prop) (l : list A) :
  StronglySorted R l -> StronglySorted (flip R) (rev l).
Proof.
  induction 1 as [|x l Hs IH Hx]; simpl; [constructor|].
  apply StronglySorted_app. split_and!; [|done|repeat constructor].
  intros a b Ha Hb. apply list_elem_of_singleton in Hb as ->.
  rewrite Forall_forall in Hx. apply Hx. apply list_elem_of_In. apply list_elem_of_In in Ha.
  by apply in_rev.
Qed.

Lemma StronglySorted_slice {A} (R : A -> A -> Prop) (a b : nat) (l : list A) :
  StronglySorted R l -> StronglySorted R (slice a b l).
Proof.
  intros H. unfold slice.
  rewrite <- (firstn_skipn a l) in H. apply StronglySorted_app_1_r in H.
  rewrite <- (firstn_skipn (b - a) (skipn a l)) in H.
  by apply StronglySorted_app_1_l in H.
Qed.

Lemma StronglySorted_lookup {A} (R : A -> A -> Prop) (l : list A)
  (p q : nat) (a b : A) :
  StronglySorted R l -> (p < q)%nat ->
  l !! p = Some a -> l !! q = Some b -> R a b.
Proof.
  intros Hs. revert p q. induction Hs as [|x l Hs IH Hx]; intros p q Hpq Hp Hq.
  - discriminate.
  - destruct q as [|q]; [lia|]. simpl in Hq. destruct p as [|p].
    + injection Hp as <-. rewrite Forall_forall in Hx. apply Hx.
      by eapply list_elem_of_lookup_2.
    + simpl in Hp. apply (IH p q); [lia|done..].
Qed.

(** ** Shapes *)

Lemma map_lookup {A B} (f : A -> B) (l : list A) (i : nat) :
  map f l !! i = f <$> l !! i.
Proof.
  revert i. induction l as [|a l IH]; intros [|i]; simpl; auto.
Qed.

Lemma hstack2_map {A B} (f g : A -> list B) (l : list A) :
  hstack2 (map f l) (map g l) = map (fun x => f x ++ g x) l.
Proof. induction l as [|a l IH]; simpl; [done|]. by rewrite IH. Qed.

(** ** Arrays with NaN *)

Lemma row_numbers_map_Some (v : vector) : row_numbers (map Some v) = Some v.
Proof. induction v as [|x v IH]; simpl; [done|]. by rewrite IH. Qed.

Lemma row_numbers_Some (row : nan_vector) (v : vector) :
  row_numbers row = Some v -> row = map Some v.
Proof.
  revert v. induction row as [|c row IH]; simpl; intros v.
  - by intros [= <-].
  - destruct c as [x|]; [|discriminate].
    destruct (row_numbers row) as [v'|]; [|discriminate].
    intros [= <-]. simpl. by rewrite (IH v').
Qed.

Lemma numbers_numeric (X : matrix) : numbers (numeric X) = Some X.
Proof.
  unfold numeric. induction X as [|v X IH]; simpl; [done|].
  by rewrite row_numbers_map_Some, IH.
Qed.

Lemma numbers_Some (X : nan_matrix) (Y : matrix) :
  numbers X = Some Y -> X = numeric Y.
Proof.
  revert Y. induction X as [|row X IH]; simpl; intros Y.
  - by intros [= <-].
  - destruct (row_numbers row) as [v|] eqn:E; [|discriminate].
    destruct (numbers X) as [V|]; [|discriminate].
    intros [= <-]. simpl. by rewrite (row_numbers_Some _ _ E), (IH V).
Qed.

Lemma numeric_inj (X Y : matrix) : numeric X = numeric Y -> X = Y.
Proof.
  intros H. apply (f_equal numbers) in H.
  rewrite !numbers_numeric in H. by injection H.
Qed.

Lemma numeric_length (X : matrix) : List.length (numeric X) = List.length X.
Proof. apply length_map. Qed.

Lemma numeric_lookup (X : matrix) (i : nat) :
  numeric X !! i = map Some <$> X !! i.
Proof. apply map_lookup. Qed.

Lemma nth_map_Some (v : vector) (j : nat) :
  (j < List.length v)%nat -> nth j (map Some v) None = Some (nth j v 0).
Proof.
  revert j. induction v as [|x v IH]; intros [|j]; simpl; try lia; [done|].
  intros H. apply IH. lia.
Qed.

(** ** Comprehensions that may raise *)

Lemma traverse_Ok_map {A B} (f : A -> result B) (g : A -> B) (l : list A) :
  List.Forall (fun a => f a = Ok (g a)) l -> traverse f l = Ok (map g l).
Proof.
  induction 1 as [|a l Ha _ IH]; simpl; [done|]. by rewrite Ha, IH.
Qed.

Lemma traverse_Raise {A B} (f : A -> result B) (l : list A) (e : exn) :
  traverse f l = Raise e -> exists a, In a l /\ f a = Raise e.
Proof.
  induction l as [|a l IH]; simpl; [discriminate|].
  destruct (f a) as [b|e'] eqn:E.
  - destruct (traverse f l) as [bs'|e']; [discriminate|].
    intros [= <-]. destruct IH as (a' & Hin & Ha'); [done|]. eauto.
  - intros [= <-]. eauto.
Qed.

Lemma traverse_map {A B C} (f : B -> result C) (g : A -> B) (l : list A) :
  traverse f (map g l) = traverse (fun a => f (g a)) l.
Proof.
  induction l as [|a l IH]; simpl; [done|]. by rewrite IH.
Qed.

Lemma traverse_raises {A B} (f : A -> result B) (l : list A) (a : A) :
  In a l -> (exists e, f a = Raise e) -> exists e, traverse f l = Raise e.
Proof.
  induction l as [|a' l IH]; simpl; [done|].
  intros [->|Hin] [e He].
  - rewrite He. eauto.
  - destruct (f a') as [b|e']; [|eauto].
    destruct IH as [e' ->]; eauto.
Qed.

(** When every exception of the body is [e0] and the body raises on some
    element, the comprehension raises [e0]. *)
Lemma traverse_Raise_only {A B} (f : A -> result B) (l : list A) (e0 : exn) :
  (forall a e, In a l -> f a = Raise e -> e = e0) ->
  (exists a, In a l /\ exists e, f a = Raise e) ->
  traverse f l = Raise e0.
Proof.
  intros Hall (a & Hin & He).
  destruct (traverse_raises f l a Hin He) as [e E].
  pose proof E as E'. apply traverse_Raise in E' as (a' & Hin' & Ha').
  by rewrite E, (Hall a' e Hin' Ha').
Qed.

(** ** The outcomes of the build *)

Lemma tfidf_fit_transform_Ok (sw docs : list string) :
  Text.vocabulary sw docs <> [] ->
  Tfidf.fit_transform sw docs
  = Ok (map (fun d => Tfidf.normalize_row
                        (Tfidf.weighted_row sw docs d)) docs).
Proof.
  unfold Tfidf.fit_transform, Tfidf.vocab. by destruct (Text.vocabulary sw docs).
Qed.

Lemma tfidf_fit_transform_Raise (sw docs : list string) :
  Text.vocabulary sw docs = [] ->
  Tfidf.fit_transform sw docs = Raise empty_vocabulary.
Proof. unfold Tfidf.fit_transform, Tfidf.vocab. by intros ->. Qed.

(** *** np.log1p and the array of continuous attributes *)

Lemma np_log1p_fits (v : Z) :
  fits_integer v -> np_log1p v = Ok (log1p_value v).
Proof.
  unfold fits_integer, np_log1p. intros H.
  destruct (v <? - 2 ^ 63)%Z eqn:E1; [apply Z.ltb_lt in E1; lia|].
  destruct (2 ^ 64 <=? v)%Z eqn:E2; [apply Z.leb_le in E2; lia|].
  reflexivity.
Qed.

Lemma np_log1p_TypeError (v : Z) :
  ~ fits_integer v -> np_log1p v = Raise TypeError.
Proof.
  unfold fits_integer, np_log1p. intros H.
  destruct (v <? - 2 ^ 63)%Z eqn:E1; [done|].
  destruct (2 ^ 64 <=? v)%Z eqn:E2; [done|].
  apply Z.ltb_ge in E1. apply Z.leb_gt in E2. lia.
Qed.

Lemma np_log1p_error (v : Z) (e : exn) :
  np_log1p v = Raise e -> e = TypeError /\ ~ fits_integer v.
Proof.
  intros H. destruct (decide (fits_integer v)) as [F|F].
  - rewrite np_log1p_fits in H by done. discriminate.
  - rewrite np_log1p_TypeError in H by done. by injection H as <-.
Qed.

Section Continuous.

Variable y : Z.

(** The row [np.array] receives for a movie whose vote count fits. *)
Let floats (m : Movie) : list float64 :=
  [ Num (IZR (y - release_year m)); Num (runtime m); Num (popularity m);
    Num (vote_average m); log1p_value (vote_count m) ].

Lemma continuous_values_fits (m : Movie) :
  fits_integer (vote_count m) -> continuous_values y m = Ok (floats m).
Proof.
  intros H. unfold continuous_values. by rewrite np_log1p_fits.
Qed.

Lemma continuous_values_error (m : Movie) (e : exn) :
  continuous_values y m = Raise e ->
  e = TypeError /\ ~ fits_integer (vote_count m).
Proof.
  unfold continuous_values.
  destruct (np_log1p (vote_count m)) as [c|e'] eqn:E; [discriminate|].
  intros [= <-]. by apply np_log1p_error.
Qed.

Lemma check_floats (m : Movie) :
  vote_count m <> (-1)%Z ->
  traverse NanMinMax.check_cell (floats m) = Ok (continuous_cells y m).
Proof.
  intros H. unfold floats, continuous_cells, log1p_value. simpl.
  destruct (vote_count m <? -1)%Z; [done|].
  destruct (vote_count m =? -1)%Z eqn:E; [apply Z.eqb_eq in E; lia|done].
Qed.

Lemma check_floats_error (m : Movie) (e : exn) :
  traverse NanMinMax.check_cell (floats m) = Raise e ->
  e = contains_infinity /\ vote_count m = (-1)%Z.
Proof.
  unfold floats, log1p_value. simpl.
  destruct (vote_count m <? -1)%Z; [discriminate|].
  destruct (vote_count m =? -1)%Z eqn:E; [|discriminate].
  apply Z.eqb_eq in E. simpl. by intros [= <-].
Qed.

(** The three ways the array of continuous attributes turns out; which
    one depends on the vote counts alone. *)
Lemma continuous_features_cases (ms : list Movie) :
  (List.Forall (fun m => fits_integer (vote_count m)) ms /\
   List.Forall (fun m => vote_count m <> (-1)%Z) ms /\
   continuous_features y ms
   = Ok (NanMinMax.transform (map (continuous_cells y) ms))) \/
  (~ List.Forall (fun m => fits_integer (vote_count m)) ms /\
   continuous_features y ms = Raise TypeError) \/
  (List.Forall (fun m => fits_integer (vote_count m)) ms /\
   ~ List.Forall (fun m => vote_count m <> (-1)%Z) ms /\
   continuous_features y ms = Raise contains_infinity).
Proof.
  unfold continuous_features.
  destruct (decide (List.Forall (fun m => fits_integer (vote_count m)) ms))
    as [F|F].
  - rewrite (traverse_Ok_map _ floats).
    2:{ eapply List.Forall_impl; [|exact F].
        intros m. apply continuous_values_fits. }
    unfold NanMinMax.fit_transform, NanMinMax.check_array.
    rewrite traverse_map.
    destruct (decide (List.Forall (fun m => vote_count m <> (-1)%Z) ms))
      as [G|G].
    + left. split_and!; [done..|].
      rewrite (traverse_Ok_map _ (continuous_cells y)); [done|].
      eapply List.Forall_impl; [|exact G]. intros m. apply check_floats.
    + right; right. split_and!; [done..|].
      rewrite (traverse_Raise_only _ ms contains_infinity); [done| |].
      * intros m e _ He. by apply check_floats_error in He as [-> _].
      * apply not_Forall_Exists in G; [|apply _].
        apply Exists_exists in G as (m & Hm & Hv).
        exists m. split; [by apply list_elem_of_In|].
        destruct (traverse NanMinMax.check_cell (floats m)) as [r|e] eqn:E;
          [|eauto].
        exfalso. apply Hv. intros Hn.
        unfold floats, log1p_value in E. rewrite Hn in E. discriminate.
  - right; left. split; [done|].
    rewrite (traverse_Raise_only _ ms TypeError); [done| |].
    + intros m e _ He. by apply continuous_values_error in He as [-> _].
    + apply not_Forall_Exists in F; [|apply _].
      apply Exists_exists in F as (m & Hm & Hv).
      exists m. split; [by apply list_elem_of_In|].
      destruct (continuous_values y m) as [r|e] eqn:E; [|eauto].
      exfalso. apply Hv.
      destruct (decide (fits_integer (vote_count m))) as [Hf|Hf]; [done|].
      unfold continuous_values in E.
      rewrite np_log1p_TypeError in E by done. discriminate.
Qed.

End Continuous.

(** *** The scaler on an array of numbers *)

Lemma present_map_Some (v : vector) : NanMinMax.present (map Some v) = v.
Proof. induction v as [|x v IH]; simpl; [done|]. by rewrite IH. Qed.

Section Numeric.

Variable Xr : matrix.
Hypothesis nonempty : Xr <> [].
Hypothesis rectangular :
  List.Forall (fun r => List.length r = MinMax.n_features Xr) Xr.

Lemma nan_n_features :
  NanMinMax.n_features (numeric Xr) = MinMax.n_features Xr.
Proof.
  unfold NanMinMax.n_features, MinMax.n_features, numeric.
  destruct Xr; simpl; [done|]. apply length_map.
Qed.

Lemma nan_column (j : nat) :
  (j < MinMax.n_features Xr)%nat ->
  NanMinMax.column j (numeric Xr) = map Some (MinMax.column j Xr).
Proof.
  intros Hj. unfold NanMinMax.column, MinMax.column, numeric.
  rewrite !map_map. apply map_ext_in. intros r Hr.
  apply nth_map_Some.
  rewrite (proj1 (List.Forall_forall _ _) rectangular r Hr). done.
Qed.

Lemma nan_data_min :
  NanMinMax.data_min (numeric Xr) = map Some (MinMax.data_min Xr).
Proof.
  unfold NanMinMax.data_min, MinMax.data_min.
  rewrite nan_n_features, map_map. apply map_ext_in. intros j Hj.
  apply in_seq in Hj. rewrite nan_column by lia.
  unfold NanMinMax.nanmin. rewrite present_map_Some.
  unfold MinMax.column. destruct Xr; [done|reflexivity].
Qed.

Lemma nan_data_max :
  NanMinMax.data_max (numeric Xr) = map Some (MinMax.data_max Xr).
Proof.
  unfold NanMinMax.data_max, MinMax.data_max.
  rewrite nan_n_features, map_map. apply map_ext_in. intros j Hj.
  apply in_seq in Hj. rewrite nan_column by lia.
  unfold NanMinMax.nanmax. rewrite present_map_Some.
  unfold MinMax.column. destruct Xr; [done|reflexivity].
Qed.

Lemma nan_data_range :
  NanMinMax.data_range (numeric Xr) = map Some (MinMax.data_range Xr).
Proof.
  unfold NanMinMax.data_range, MinMax.data_range.
  rewrite nan_n_features, nan_data_min, nan_data_max, map_map.
  apply map_ext_in. intros j Hj. apply in_seq in Hj.
  rewrite !nth_map_Some; [done|..];
    unfold MinMax.data_min, MinMax.data_max;
    rewrite length_map, length_seq; lia.
Qed.

Lemma nan_scale :
  NanMinMax.scale_ (numeric Xr) = map Some (MinMax.scale_ Xr).
Proof.
  unfold NanMinMax.scale_, MinMax.scale_.
  rewrite nan_data_range, !map_map. reflexivity.
Qed.

Lemma nan_min :
  NanMinMax.min_ (numeric Xr) = map Some (MinMax.min_ Xr).
Proof.
  unfold NanMinMax.min_, MinMax.min_.
  rewrite nan_n_features, nan_data_min, nan_scale, map_map.
  apply map_ext_in. intros j Hj. apply in_seq in Hj.
  rewrite !nth_map_Some; [done|..].
  - unfold MinMax.scale_, MinMax.data_range.
    rewrite !length_map, length_seq. lia.
  - unfold MinMax.data_min. rewrite length_map, length_seq. lia.
Qed.

Lemma nan_transform_row (row : vector) :
  List.length row = MinMax.n_features Xr ->
  NanMinMax.transform_row (numeric Xr) (map Some row)
  = map Some (MinMax.transform_row Xr row).
Proof.
  intros Hlen. unfold NanMinMax.transform_row, MinMax.transform_row.
  rewrite nan_n_features, nan_scale, nan_min, map_map.
  apply map_ext_in. intros j Hj. apply in_seq in Hj.
  rewrite !nth_map_Some; [done|..].
  - unfold MinMax.min_. rewrite length_map, length_seq. lia.
  - unfold MinMax.scale_, MinMax.data_range.
    rewrite !length_map, length_seq. lia.
  - lia.
Qed.

(** On an array of numbers the scaler computes what it computes over the
    reals. *)
Lemma nan_transform :
  NanMinMax.transform (numeric Xr) = numeric (MinMax.fit_transform Xr).
Proof.
  unfold NanMinMax.transform, MinMax.fit_transform.
  unfold numeric at 2 3. rewrite !map_map. apply map_ext_in. intros r Hr.
  apply nan_transform_row.
  exact (proj1 (List.Forall_forall _ _) rectangular r Hr).
Qed.

End Numeric.

Lemma continuous_row_length (y : Z) (m : Movie) :
  List.length (continuous_row y m) = 5%nat.
Proof. reflexivity. Qed.

Lemma continuous_n_features (y : Z) (ms : list Movie) :
  ms <> [] -> MinMax.n_features (map (continuous_row y) ms) = 5%nat.
Proof. by destruct ms. Qed.

Lemma continuous_cells_numeric (y : Z) (m : Movie) :
  (0 <= vote_count m)%Z ->
  continuous_cells y m = map Some (continuous_row y m).
Proof.
  intros H. unfold continuous_cells, continuous_row. simpl.
  destruct (vote_count m <? -1)%Z eqn:E; [apply Z.ltb_lt in E; lia|done].
Qed.

Lemma scaled_cells_numeric (y : Z) (ms : list Movie) (m : Movie) :
  List.Forall (fun m => (0 <= vote_count m)%Z) ms ->
  In m ms ->
  scaled_cells y ms m = map Some (scaled_row y ms m).
Proof.
  intros F Hm. unfold scaled_cells, scaled_row.
  assert (ms <> []) as Hne by (by destruct ms).
  assert (map (continuous_cells y) ms = numeric (map (continuous_row y) ms))
    as ->.
  { unfold numeric. rewrite map_map. apply map_ext_in. intros a Ha.
    rewrite List.Forall_forall in F. apply continuous_cells_numeric. auto. }
  rewrite List.Forall_forall in F.
  rewrite continuous_cells_numeric by auto.
  apply nan_transform_row.
  - by destruct ms.
  - apply List.Forall_forall. intros r Hr.
    apply in_map_iff in Hr as (a & <- & _).
    by rewrite continuous_n_features.
  - by rewrite continuous_n_features.
Qed.

Lemma feature_cells_numeric (sw : list string) (y : Z) (ms : list Movie)
  (m : Movie) :
  List.Forall (fun m => (0 <= vote_count m)%Z) ms ->
  In m ms ->
  feature_cells sw y ms m = map Some (feature_row sw y ms m).
Proof.
  intros F Hm. unfold feature_cells, feature_row.
  rewrite scaled_cells_numeric by done. by rewrite <- map_app.
Qed.

(** The logarithm of a vote count below -1 stays NaN through the
    scaler. *)
Lemma scaled_cells_nan (y : Z) (ms : list Movie) (m : Movie) :
  In m ms -> (vote_count m < -1)%Z -> In None (scaled_cells y ms m).
Proof.
  intros Hm Hv. unfold scaled_cells, NanMinMax.transform_row.
  apply in_map_iff. exists 4%nat. split.
  - unfold continuous_cells at 2. simpl.
    destruct (vote_count m <? -1)%Z eqn:E; [done|].
    apply Z.ltb_ge in E. lia.
  - apply in_seq. unfold NanMinMax.n_features.
    destruct ms as [|a ms]; [done|]. simpl. lia.
Qed.

(** *** The build *)

Lemma buildable_builds (sw : list string) (ms : list Movie) :
  buildable sw ms -> builds sw ms.
Proof.
  intros [Ht F]. split_and!; [done|..];
    (eapply List.Forall_impl; [|exact F]); unfold fits_integer; simpl;
    intros m Hm; lia.
Qed.

Lemma buildable_nonneg (sw : list string) (ms : list Movie) :
  buildable sw ms -> List.Forall (fun m => (0 <= vote_count m)%Z) ms.
Proof.
  intros [_ F]. eapply List.Forall_impl; [|exact F]. simpl. intros m Hm. lia.
Qed.

(** The four ways the build turns out; which one depends on the text
    fields and the vote counts alone, not on the year. *)
Lemma build_features_cases (sw : list string) (y : Z) (ms : list Movie) :
  (builds sw ms /\
   build_features sw y ms = Ok (map (feature_cells sw y ms) ms)) \/
  (~ has_terms sw ms /\
   build_features sw y ms = Raise empty_vocabulary) \/
  (has_terms sw ms /\
   ~ List.Forall (fun m => fits_integer (vote_count m)) ms /\
   build_features sw y ms = Raise TypeError) \/
  (has_terms sw ms /\
   List.Forall (fun m => fits_integer (vote_count m)) ms /\
   ~ List.Forall (fun m => vote_count m <> (-1)%Z) ms /\
   build_features sw y ms = Raise contains_infinity).
Proof.
  unfold build_features.
  destruct (Text.vocabulary sw (map genres ms)) as [|g gs] eqn:Eg.
  { right; left. rewrite (tfidf_fit_transform_Raise _ _ Eg).
    split; [|done]. by intros (H & _ & _). }
  destruct (Text.vocabulary sw (map keywords ms)) as [|k ks] eqn:Ek.
  { right; left. rewrite tfidf_fit_transform_Ok by (by rewrite Eg).
    rewrite (tfidf_fit_transform_Raise _ _ Ek).
    split; [|done]. by intros (_ & H & _). }
  destruct (Text.vocabulary sw (map cast ms)) as [|c cs] eqn:Ec.
  { right; left. rewrite !tfidf_fit_transform_Ok by (by rewrite ?Eg, ?Ek).
    rewrite (tfidf_fit_transform_Raise _ _ Ec).
    split; [|done]. by intros (_ & _ & H). }
  assert (has_terms sw ms) as Ht by (by unfold has_terms; rewrite Eg, Ek, Ec).
  rewrite !tfidf_fit_transform_Ok by (by rewrite ?Eg, ?Ek, ?Ec).
  destruct (continuous_features_cases y ms)
    as [(F & G & ->)|[(F & ->)|(F & G & ->)]].
  - left. split; [done|]. f_equal. simpl.
    unfold NanMinMax.transform, feature_cells, tfidf_row, scaled_cells.
    rewrite !map_map, !hstack2_map. unfold numeric.
    by rewrite !map_map, hstack2_map.
  - right; right; left. done.
  - right; right; right. done.
Qed.

Lemma build_features_builds (sw : list string) (y : Z) (ms : list Movie) :
  builds sw ms ->
  build_features sw y ms = Ok (map (feature_cells sw y ms) ms).
Proof.
  intros (Ht & F & G).
  destruct (build_features_cases sw y ms)
    as [(_ & H)|[(N & _)|[(_ & N & _)|(_ & _ & N & _)]]]; done.
Qed.

Lemma build_features_inv (sw : list string) (y : Z) (ms : list Movie)
  (fm : nan_matrix) :
  build_features sw y ms = Ok fm ->
  builds sw ms /\ fm = map (feature_cells sw y ms) ms.
Proof.
  intros H.
  destruct (build_features_cases sw y ms)
    as [(B & E)|[(_ & E)|[(_ & _ & E)|(_ & _ & _ & E)]]];
    rewrite E in H; [|discriminate..].
  by injection H as <-.
Qed.


Lemma build_features_Raise (sw : list string) (y : Z) (ms : list Movie)
  (e : exn) :
  build_features sw y ms = Raise e ->
  ~ builds sw ms /\
  (e = empty_vocabulary \/ e = TypeError \/ e = contains_infinity).
Proof.
  intros H. split.
  - intros B. rewrite build_features_builds in H by done. discriminate.
  - destruct (build_features_cases sw y ms)
      as [(B & E)|[(_ & E)|[(_ & _ & E)|(_ & _ & _ & E)]]];
      rewrite E in H; [discriminate|injection H as <-; auto..].
Qed.

Lemma build_features_length (sw : list string) (y : Z) (ms : list Movie)
  (fm : nan_matrix) :
  build_features sw y ms = Ok fm -> List.length fm = List.length ms.
Proof.
  intros H. apply build_features_inv in H as [_ ->]. apply length_map.
Qed.

Lemma build_features_TypeError (sw : list string) (y : Z) (ms : list Movie) :
  build_features sw y ms = Raise TypeError ->
  ~ List.Forall (fun m => fits_integer (vote_count m)) ms.
Proof.
  intros H.
  destruct (build_features_cases sw y ms)
    as [(_ & E)|[(_ & E)|[(_ & F & _)|(_ & _ & _ & E)]]];
    [rewrite E in H; discriminate..|done|rewrite E in H; discriminate].
Qed.

(** A failed build does not depend on the year. *)
Lemma build_features_year (sw : list string) (y y' : Z) (ms : list Movie)
  (e : exn) :
  build_features sw y ms = Raise e -> build_features sw y' ms = Raise e.
Proof.
  intros H.
  destruct (build_features_cases sw y ms)
    as [(B & E)|[(T & E)|[(T & F & E)|(T & F & G & E)]]];
    rewrite E in H; [discriminate|injection H as <-..];
    destruct (build_features_cases sw y' ms)
      as [((T' & F' & G') & _)|[(T' & E')|[(T' & F' & E')|(T' & F' & G' & E')]]];
    done.
Qed.

Lemma build_features_eq (sw : list string) (y : Z) (ms : list Movie) :
  buildable sw ms ->
  build_features sw y ms = Ok (numeric (map (feature_row sw y ms) ms)).
Proof.
  intros Hb. rewrite build_features_builds by (by apply buildable_builds).
  f_equal. unfold numeric. rewrite map_map. apply map_ext_in. intros m Hm.
  apply feature_cells_numeric; [|done]. by eapply buildable_nonneg.
Qed.

(** A build that returns numbers is one of a catalog without negative
    vote counts, and the numbers are the rows over the reals. *)
Lemma build_features_numeric (sw : list string) (y : Z) (ms : list Movie)
  (X : matrix) :
  build_features sw y ms = Ok (numeric X) ->
  buildable sw ms /\ X = map (feature_row sw y ms) ms.
Proof.
  intros H. pose proof H as H'.
  apply build_features_inv in H' as [(Ht & F & G) E].
  assert (buildable sw ms) as Hb.
  { split; [done|]. apply List.Forall_forall. intros m Hm.
    rewrite List.Forall_forall in F, G.
    specialize (F m Hm). specialize (G m Hm). unfold fits_integer in F.
    destruct (decide (vote_count m < -1)%Z) as [Hv|Hv]; [exfalso|lia].
    pose proof (scaled_cells_nan y ms m Hm Hv) as Hn.
    assert (In (feature_cells sw y ms m) (numeric X)) as Hin
      by (rewrite E; by apply in_map).
    apply in_map_iff in Hin as (r & Hr & _).
    assert (In None (map Some r)) as Hc.
    { rewrite Hr. unfold feature_cells. apply in_or_app. by right. }
    apply in_map_iff in Hc as (? & ? & _). discriminate. }
  split; [done|].
  rewrite (build_features_eq sw y ms Hb) in H.
  injection H as H. symmetry. by apply numeric_inj.
Qed.

(** ** Scores and chosen indices *)

Lemma similarity_scores_eq (fm : matrix) (x : vector) :
  similarity_scores fm x
  = map (fun y => dot (normalize x) (normalize y)) fm.
Proof. reflexivity. Qed.

Lemma similarity_scores_length (fm : matrix) (x : vector) :
  List.length (similarity_scores fm x) = List.length fm.
Proof. rewrite similarity_scores_eq. apply length_map. Qed.

Lemma most_similar_indices_length (scores : vector) :
  List.length (most_similar_indices scores)
  = Nat.min 5 (List.length scores - 1).
Proof.
  unfold most_similar_indices, slice.
  rewrite length_firstn, length_skipn, length_rev, argsort_length.
  reflexivity.
Qed.

Lemma slice_In {A} (a b : nat) (l : list A) (x : A) :
  In x (slice a b l) -> In x l.
Proof.
  unfold slice. intros H.
  rewrite <- (firstn_skipn a l). apply in_or_app. right.
  rewrite <- (firstn_skipn (b - a) (skipn a l)). apply in_or_app. by left.
Qed.

Lemma most_similar_indices_In (scores : vector) (i : nat) :
  In i (most_similar_indices scores) -> (i < List.length scores)%nat.
Proof.
  intros H. apply slice_In, in_rev in H.
  apply (Permutation_in _ (argsort_perm scores)), in_seq in H. lia.
Qed.

Lemma most_similar_indices_NoDup (scores : vector) :
  NoDup (most_similar_indices scores).
Proof.
  assert (NoDup (rev (argsort scores))) as H.
  { apply NoDup_ListNoDup, List.NoDup_rev.
    rewrite (argsort_perm scores). apply List.seq_NoDup. }
  unfold most_similar_indices, slice.
  rewrite <- (firstn_skipn 1 (rev (argsort scores))) in H.
  apply NoDup_app in H as (_ & _ & H).
  rewrite <- (firstn_skipn (6 - 1) (skipn 1 (rev (argsort scores)))) in H.
  by apply NoDup_app in H as (H & _ & _).
Qed.

Lemma titles_at_Ok (ms : list Movie) (idxs : list nat) :
  Forall (fun i => (i < List.length ms)%nat) idxs ->
  exists ts, titles_at ms idxs = Ok ts /\
             Forall2 (fun i t => title <$> ms !! i = Some t) idxs ts.
Proof.
  induction 1 as [|i idxs Hi _ (ts & E & F)]; simpl.
  - exists []. split; [done|constructor].
  - destruct (lookup_lt_is_Some_2 ms i Hi) as [m Hm]. rewrite Hm, E.
    exists (title m :: ts). split; [done|]. constructor; [|done].
    by rewrite Hm.
Qed.

Lemma titles_at_inv (ms : list Movie) (idxs : list nat) (ts : list string) :
  titles_at ms idxs = Ok ts ->
  Forall2 (fun i t => title <$> ms !! i = Some t) idxs ts.
Proof.
  revert ts. induction idxs as [|i idxs IH]; simpl; intros ts.
  - intros [= <-]. constructor.
  - destruct (ms !! i) as [m|] eqn:Hm; [|discriminate].
    destruct (titles_at ms idxs) as [ts'|]; [|discriminate].
    intros [= <-]. constructor; [by rewrite Hm|by apply IH].
Qed.

(** ** The instance across calls *)

Lemma init_consistent (sw : list string) (ms : list Movie) :
  consistent sw (init ms).
Proof. split; [done|]. intros fm H. discriminate. Qed.

Lemma calculate_similarity_cached (sw : list string) (y : Z)
  (self : MovieRecommender) (t : string) (fm : nan_matrix) :
  feature_matrix self = Some fm ->
  calculate_similarity sw y self t = (self, rank self t).
Proof. unfold calculate_similarity. by intros ->. Qed.

Lemma calculate_similarity_fresh (sw : list string) (y : Z)
  (self : MovieRecommender) (t : string) (fm : nan_matrix) :
  feature_matrix self = None ->
  build_features sw y (movies self) = Ok fm ->
  calculate_similarity sw y self t
  = (set_feature_matrix self fm, rank (set_feature_matrix self fm) t).
Proof.
  unfold calculate_similarity, feature_engineering. by intros -> ->.
Qed.

Lemma calculate_similarity_failed (sw : list string) (y : Z)
  (self : MovieRecommender) (t : string) (e : exn) :
  feature_matrix self = None ->
  build_features sw y (movies self) = Raise e ->
  calculate_similarity sw y self t = (self, Raise e).
Proof.
  unfold calculate_similarity, feature_engineering. by intros -> ->.
Qed.

Lemma calculate_similarity_consistent (sw : list string) (y : Z)
  (self : MovieRecommender) (t : string) :
  consistent sw self -> consistent sw (fst (calculate_similarity sw y self t)).
Proof.
  intros [Hi Hm]. destruct (feature_matrix self) as [fm|] eqn:E.
  - rewrite (calculate_similarity_cached _ _ _ _ _ E). simpl.
    split; [done|]. by rewrite E.
  - destruct (build_features sw y (movies self)) as [fm|e] eqn:B.
    + rewrite (calculate_similarity_fresh _ _ _ _ _ E B). simpl.
      split; [done|]. simpl. intros ? [= <-]. eauto.
    + rewrite (calculate_similarity_failed _ _ _ _ _ E B). simpl.
      split; [done|]. by rewrite E.
Qed.

Lemma title_index_lt (ms : list Movie) (t : string) (i : nat) :
  title_index ms !! t = Some i -> (i < List.length ms)%nat.
Proof.
  intros H. apply title_index_Some in H as [(m & Hm & _) _].
  by eapply lookup_lt_Some.
Qed.

(** Ranking against a stored matrix of numbers. *)
Lemma rank_numeric (self : MovieRecommender) (t : string) (i : nat)
  (X : matrix) (row : vector) :
  feature_matrix self = Some (numeric X) ->
  movie_indices self !! t = Some i ->
  X !! i = Some row ->
  rank self t
  = titles_at (movies self) (most_similar_indices (similarity_scores X row)).
Proof.
  intros Hfm Ht Hrow. unfold rank.
  rewrite Ht, Hfm, numeric_lookup, Hrow. simpl.
  by rewrite row_numbers_map_Some, numbers_numeric.
Qed.

(** With a matrix of numbers stored, one row per movie, and the title
    indexed, ranking returns the titles found at the chosen indices. *)
Lemma rank_Ok (self : MovieRecommender) (t : string) (i : nat) (X : matrix) :
  movie_indices self = title_index (movies self) ->
  feature_matrix self = Some (numeric X) ->
  List.length X = List.length (movies self) ->
  movie_indices self !! t = Some i ->
  exists row ts,
    X !! i = Some row /\
    rank self t = Ok ts /\
    Forall2 (fun j u => title <$> movies self !! j = Some u)
            (most_similar_indices (similarity_scores X row)) ts.
Proof.
  intros Hi Hfm Hlen Ht.
  pose proof Ht as Ht'. rewrite Hi in Ht'.
  pose proof (title_index_lt _ _ _ Ht') as Hlt.
  destruct (lookup_lt_is_Some_2 X i) as [row Hrow]; [lia|].
  destruct (titles_at_Ok (movies self)
              (most_similar_indices (similarity_scores X row)))
    as (ts & Hts & F).
  { apply List.Forall_forall. intros j Hj.
    apply most_similar_indices_In in Hj.
    rewrite similarity_scores_length in Hj. lia. }
  exists row, ts. split_and!; [done| |done].
  by rewrite (rank_numeric self t i X row).
Qed.

(** With a matrix that holds a NaN stored, one row per movie, a query for
    an indexed title raises. *)
Lemma rank_nan (self : MovieRecommender) (t : string) (i : nat)
  (fm : nan_matrix) :
  movie_indices self = title_index (movies self) ->
  feature_matrix self = Some fm ->
  List.length fm = List.length (movies self) ->
  numbers fm = None ->
  movie_indices self !! t = Some i ->
  rank self t = Raise contains_nan.
Proof.
  intros Hi Hfm Hlen Hn Ht.
  pose proof Ht as Ht'. rewrite Hi in Ht'.
  pose proof (title_index_lt _ _ _ Ht') as Hlt.
  destruct (lookup_lt_is_Some_2 fm i) as [row Hrow]; [lia|].
  unfold rank. rewrite Ht, Hfm, Hrow, Hn.
  by destruct (row_numbers row).
Qed.

Lemma titles_at_error (ms : list Movie) (idxs : list nat) (e : exn) :
  titles_at ms idxs = Raise e -> e = IndexError.
Proof.
  induction idxs as [|i idxs IH]; simpl; [discriminate|].
  destruct (ms !! i); [|by intros [= <-]].
  destruct (titles_at ms idxs); [discriminate|].
  intros [= <-]. by apply IH.
Qed.

Lemma not_found_neq (t : string) :
  not_found t <> empty_vocabulary /\ not_found t <> contains_infinity /\
  not_found t <> contains_nan /\ not_found t <> TypeError /\
  not_found t <> IndexError.
Proof. split_and!; discriminate. Qed.


(** The exceptions ranking can end in. *)
Lemma rank_error (self : MovieRecommender) (t : string) (e : exn) :
  rank self t = Raise e ->
  (e = not_found t /\ movie_indices self !! t = None) \/
  (is_Some (movie_indices self !! t) /\
   (e = TypeError \/ e = IndexError \/ e = contains_nan)).
Proof.
  unfold rank. destruct (movie_indices self !! t) as [i|];
    [|intros [= <-]; by left].
  intros H. right. split; [by eexists|].
  destruct (feature_matrix self) as [fm|]; [|injection H as <-; auto].
  destruct (fm !! i) as [row|]; [|injection H as <-; auto].
  destruct (row_numbers row), (numbers fm);
    try (injection H as <-; by auto).
  apply titles_at_error in H. auto.
Qed.

(** ** Dot products and norms *)

Lemma dot_self_nonneg (x : vector) : 0 <= dot x x.
Proof. induction x as [|a x IH]; simpl; [lra|nra]. Qed.

Lemma cauchy_schwarz (x y : vector) :
  dot x y * dot x y <= dot x x * dot y y.
Proof.
  revert y. induction x as [|a x IH]; intros [|b y]; simpl;
    try (ring_simplify; lra).
  specialize (IH y).
  pose proof (dot_self_nonneg x) as Hx.
  pose proof (dot_self_nonneg y) as Hy.
  set (D := dot x y) in *. set (X := dot x x) in *. set (Y := dot y y) in *.
  assert (2 * (a * b * D) <= a * a * Y + b * b * X) as H.
  { destruct (Rle_lt_dec (2 * (a * b * D)) (a * a * Y + b * b * X)) as [|Hc];
        [done|exfalso].
      assert (0 <= a * a * Y + b * b * X) as HP by nra.
      assert ((a * a * Y + b * b * X) * (a * a * Y + b * b * X)
              < (2 * (a * b * D)) * (2 * (a * b * D))) as HQ by nra.
      assert ((2 * (a * b * D)) * (2 * (a * b * D))
              <= 4 * (a * a) * (b * b) * (X * Y)) as HR.
      { replace ((2 * (a * b * D)) * (2 * (a * b * D)))
          with (4 * (a * a) * (b * b) * (D * D)) by ring.
        apply Rmult_le_compat_l; [|done].
        apply Rmult_le_pos; [apply Rmult_le_pos; [lra|nra]|nra]. }
      pose proof (Rle_0_sqr (a * a * Y - b * b * X)) as HS.
      unfold Rsqr in HS.
      assert ((a * a * Y + b * b * X) * (a * a * Y + b * b * X)
              = (a * a * Y - b * b * X) * (a * a * Y - b * b * X)
                + 4 * (a * a) * (b * b) * (X * Y)) as HT by ring.
      lra. }
  nra.
Qed.

Lemma dot_self_zero (x : vector) : dot x x = 0 <-> List.Forall (eq 0) x.
Proof.
  induction x as [|a x IH]; simpl.
  - split; [constructor|done].
  - pose proof (dot_self_nonneg x) as Hx. split.
    + intros H. assert (a = 0) as -> by nra. constructor; [done|].
      apply IH. nra.
    + intros H. inversion H as [|? ? <- Hx']; subst. apply IH in Hx'. nra.
Qed.

Lemma dot_zero_l (x y : vector) : dot x x = 0 -> dot x y = 0.
Proof. intros H. pose proof (cauchy_schwarz x y) as C. rewrite H in C. nra. Qed.

Lemma dot_comm (x y : vector) : dot x y = dot y x.
Proof.
  revert y. induction x as [|a x IH]; intros [|b y]; simpl; try done.
  rewrite IH. ring.
Qed.

Lemma norm_nonneg (x : vector) : 0 <= norm x.
Proof. apply sqrt_pos. Qed.

Lemma norm_sqr (x : vector) : norm x * norm x = dot x x.
Proof. apply sqrt_sqrt, dot_self_nonneg. Qed.

Lemma norm_zero (x : vector) : norm x = 0 <-> dot x x = 0.
Proof.
  split; intros H.
  - rewrite <- norm_sqr, H. ring.
  - unfold norm. rewrite H. apply sqrt_0.
Qed.

Lemma dot_le_norms (x y : vector) : dot x y <= norm x * norm y.
Proof.
  pose proof (cauchy_schwarz x y) as C.
  rewrite <- (norm_sqr x), <- (norm_sqr y) in C.
  pose proof (norm_nonneg x). pose proof (norm_nonneg y).
  destruct (Rle_lt_dec (dot x y) (norm x * norm y)) as [|Hc]; [done|].
  exfalso. assert (0 <= norm x * norm y) by nra. nra.
Qed.

Lemma handle_zeros_in_scale_neq (s : R) : handle_zeros_in_scale s <> 0.
Proof.
  unfold handle_zeros_in_scale. destruct (Reqb s 0) eqn:E; [lra|].
  intros H. apply Reqb_eq in H. congruence.
Qed.

Lemma handle_zeros_in_scale_zero (s : R) :
  s = 0 -> handle_zeros_in_scale s = 1.
Proof.
  intros H. apply Reqb_eq in H. unfold handle_zeros_in_scale. by rewrite H.
Qed.

Lemma handle_zeros_in_scale_nonzero (s : R) :
  s <> 0 -> handle_zeros_in_scale s = s.
Proof.
  intros H. unfold handle_zeros_in_scale. destruct (Reqb s 0) eqn:E; [|done].
  apply Reqb_eq in E. done.
Qed.

Lemma dot_scaled (x y : vector) (c d : R) :
  c <> 0 -> d <> 0 ->
  dot (map (fun a => a / c) x) (map (fun a => a / d) y) = dot x y / (c * d).
Proof.
  intros Hc Hd. revert y.
  induction x as [|a x IH]; intros [|b y]; simpl; try (field; done).
  rewrite IH. field. done.
Qed.

(** One entry of the cosine matrix. *)
Lemma cosine_entry (x y : vector) :
  dot (normalize x) (normalize y)
  = dot x y / (handle_zeros_in_scale (norm x) * handle_zeros_in_scale (norm y)).
Proof. apply dot_scaled; apply handle_zeros_in_scale_neq. Qed.

Lemma cosine_standard (x y : vector) :
  norm x <> 0 -> norm y <> 0 ->
  dot (normalize x) (normalize y) = dot x y / (norm x * norm y).
Proof.
  intros Hx Hy. rewrite cosine_entry.
  by rewrite !handle_zeros_in_scale_nonzero.
Qed.

Lemma cosine_zero_l (x y : vector) :
  List.Forall (eq 0) x -> dot (normalize x) (normalize y) = 0.
Proof.
  intros H. apply dot_self_zero in H. rewrite cosine_entry.
  rewrite (dot_zero_l x y H). unfold Rdiv. ring.
Qed.

Lemma cosine_zero_r (x y : vector) :
  List.Forall (eq 0) y -> dot (normalize x) (normalize y) = 0.
Proof.
  intros H. apply dot_self_zero in H. rewrite cosine_entry.
  rewrite dot_comm, (dot_zero_l y x H). unfold Rdiv. ring.
Qed.

Lemma cosine_self (x : vector) :
  dot (normalize x) (normalize x) = if Reqb (norm x) 0 then 0 else 1.
Proof.
  destruct (Reqb (norm x) 0) eqn:E.
  - apply Reqb_eq, norm_zero, dot_self_zero in E. by apply cosine_zero_l.
  - assert (norm x <> 0) as H by (intros H; apply Reqb_eq in H; congruence).
    rewrite cosine_standard by done. rewrite norm_sqr.
    field. intros D. apply norm_zero in D. done.
Qed.

Lemma cosine_le_self (x y : vector) :
  dot (normalize x) (normalize y) <= dot (normalize x) (normalize x).
Proof.
  rewrite cosine_self. destruct (Reqb (norm x) 0) eqn:E.
  - apply Reqb_eq, norm_zero, dot_self_zero in E.
    rewrite cosine_zero_l by done. lra.
  - assert (norm x <> 0) as Hx by (intros H; apply Reqb_eq in H; congruence).
    destruct (Req_dec_T (norm y) 0) as [Hy|Hy].
    + apply norm_zero, dot_self_zero in Hy. rewrite cosine_zero_r by done. lra.
    + rewrite cosine_standard by done.
      pose proof (norm_nonneg x). pose proof (norm_nonneg y).
      pose proof (dot_le_norms x y).
      assert (0 < norm x * norm y) as Hp by (apply Rmult_lt_0_compat; lra).
      apply Rmult_le_reg_r with (norm x * norm y); [done|].
      unfold Rdiv. rewrite Rmult_assoc, Rinv_l by lra. lra.
Qed.

(** ** Min-max scaling *)

Lemma fold_left_Rmin_le (v : vector) (x : R) :
  fold_left Rmin v x <= x /\ List.Forall (fun a => fold_left Rmin v x <= a) v.
Proof.
  revert x. induction v as [|b v IH]; intros x; simpl.
  - split; [lra|constructor].
  - destruct (IH (Rmin x b)) as [H1 H2].
    pose proof (Rmin_l x b). pose proof (Rmin_r x b).
    split; [lra|]. constructor; [lra|done].
Qed.

Lemma fold_left_Rmax_ge (v : vector) (x : R) :
  x <= fold_left Rmax v x /\ List.Forall (fun a => a <= fold_left Rmax v x) v.
Proof.
  revert x. induction v as [|b v IH]; intros x; simpl.
  - split; [lra|constructor].
  - destruct (IH (Rmax x b)) as [H1 H2].
    pose proof (Rmax_l x b). pose proof (Rmax_r x b).
    split; [lra|]. constructor; [lra|done].
Qed.

Lemma minimum_le (v : vector) (a : R) : In a v -> MinMax.minimum v <= a.
Proof.
  destruct v as [|x v]; [done|]. simpl.
  destruct (fold_left_Rmin_le v x) as [H1 H2].
  rewrite List.Forall_forall in H2. intros [<-|H]; auto.
Qed.

Lemma maximum_ge (v : vector) (a : R) : In a v -> a <= MinMax.maximum v.
Proof.
  destruct v as [|x v]; [done|]. simpl.
  destruct (fold_left_Rmax_ge v x) as [H1 H2].
  rewrite List.Forall_forall in H2. intros [<-|H]; auto.
Qed.

Lemma fold_left_Rmin_const (v : vector) (c : R) :
  List.Forall (eq c) v -> fold_left Rmin v c = c.
Proof.
  induction 1 as [|b v <- _ IH]; simpl; [done|].
  rewrite Rmin_left by lra. done.
Qed.

Lemma fold_left_Rmax_const (v : vector) (c : R) :
  List.Forall (eq c) v -> fold_left Rmax v c = c.
Proof.
  induction 1 as [|b v <- _ IH]; simpl; [done|].
  rewrite Rmax_left by lra. done.
Qed.

Lemma nth_map_seq {A} (f : nat -> A) (n j : nat) (d : A) :
  (j < n)%nat -> nth j (map f (seq 0 n)) d = f j.
Proof.
  intros H. rewrite (nth_indep _ d (f 0%nat)) by (rewrite length_map, length_seq; lia).
  rewrite (map_nth f (seq 0 n) 0%nat j). by rewrite seq_nth.
Qed.

Section Scaling.

Variable X : matrix.
Variable j : nat.
Hypothesis Hj : (j < MinMax.n_features X)%nat.

Let lo := MinMax.minimum (MinMax.column j X).
Let hi := MinMax.maximum (MinMax.column j X).

Lemma scale_nth :
  nth j (MinMax.scale_ X) 0 = (1 - 0) / handle_zeros_in_scale (hi - lo).
Proof.
  unfold MinMax.scale_.
  rewrite (nth_indep _ 0 ((1 - 0) / handle_zeros_in_scale 0)).
  - rewrite (map_nth (fun r => (1 - 0) / handle_zeros_in_scale r)).
    unfold MinMax.data_range, MinMax.data_max, MinMax.data_min.
    by rewrite !nth_map_seq.
  - unfold MinMax.data_range. by rewrite !length_map, length_seq.
Qed.

(** The scaled entry, column by column. *)
Lemma transform_row_nth (row : vector) :
  nth j (MinMax.transform_row X row) 0
  = (nth j row 0 - lo) / handle_zeros_in_scale (hi - lo).
Proof.
  unfold MinMax.transform_row. rewrite nth_map_seq by done.
  unfold MinMax.min_, MinMax.data_min.
  rewrite !nth_map_seq by done. rewrite scale_nth. fold lo.
  field. apply handle_zeros_in_scale_neq.
Qed.

Lemma transform_row_bounds (row : vector) :
  In row X -> 0 <= nth j (MinMax.transform_row X row) 0 <= 1.
Proof.
  intros Hrow. rewrite transform_row_nth.
  assert (In (nth j row 0) (MinMax.column j X)) as Hin.
  { unfold MinMax.column. apply in_map_iff. eauto. }
  pose proof (minimum_le _ _ Hin) as Hlo.
  pose proof (maximum_ge _ _ Hin) as Hhi. fold lo in Hlo. fold hi in Hhi.
  destruct (Req_dec_T (hi - lo) 0) as [E|E].
  - rewrite handle_zeros_in_scale_zero by done.
    replace (nth j row 0 - lo) with 0 by lra. lra.
  - rewrite handle_zeros_in_scale_nonzero by done.
    assert (0 < hi - lo) as Hp by lra.
    split.
    + apply Rmult_le_pos; [lra|]. left. by apply Rinv_0_lt_compat.
    + apply Rmult_le_reg_r with (hi - lo); [done|].
      unfold Rdiv. rewrite Rmult_assoc, Rinv_l by lra. lra.
Qed.

Lemma transform_row_constant (row : vector) :
  In row X ->
  (forall r r', In r X -> In r' X -> nth j r 0 = nth j r' 0) ->
  nth j (MinMax.transform_row X row) 0 = 0.
Proof.
  intros Hrow Hc. rewrite transform_row_nth.
  assert (lo = nth j row 0 /\ hi = nth j row 0) as [-> ->].
  { unfold lo, hi, MinMax.column.
    destruct X as [|r0 X']; [done|]. simpl.
    assert (List.Forall (eq (nth j r0 0)) (map (fun r => nth j r 0) X')) as F.
    { apply List.Forall_forall. intros a Ha. apply in_map_iff in Ha as (r & <- & Hr).
      apply Hc; [by left|by right]. }
    rewrite fold_left_Rmin_const, fold_left_Rmax_const by done.
    split; (apply Hc; [by left|done]). }
  unfold Rdiv. ring.
Qed.

End Scaling.

(** The scaled entry of a number [x] of a column whose numbers are [v]:
    in [0,1], and 0 when the numbers of the column are all equal. *)
Lemma scale_entry_bounds (v : vector) (x : R) :
  In x v ->
  0 <= x * ((1 - 0) / handle_zeros_in_scale
                        (MinMax.maximum v - MinMax.minimum v))
       + (0 - MinMax.minimum v
              * ((1 - 0) / handle_zeros_in_scale
                             (MinMax.maximum v - MinMax.minimum v))) <= 1.
Proof.
  intros Hin.
  pose proof (minimum_le _ _ Hin) as Hlo.
  pose proof (maximum_ge _ _ Hin) as Hhi.
  set (lo := MinMax.minimum v) in *. set (hi := MinMax.maximum v) in *.
  replace (x * ((1 - 0) / handle_zeros_in_scale (hi - lo))
           + (0 - lo * ((1 - 0) / handle_zeros_in_scale (hi - lo))))
    with ((x - lo) / handle_zeros_in_scale (hi - lo))
    by (field; apply handle_zeros_in_scale_neq).
  destruct (Req_dec_T (hi - lo) 0) as [E|E].
  - rewrite handle_zeros_in_scale_zero by done.
    replace (x - lo) with 0 by lra. lra.
  - rewrite handle_zeros_in_scale_nonzero by done.
    assert (0 < hi - lo) as Hp by lra.
    split.
    + apply Rmult_le_pos; [lra|]. left. by apply Rinv_0_lt_compat.
    + apply Rmult_le_reg_r with (hi - lo); [done|].
      unfold Rdiv. rewrite Rmult_assoc, Rinv_l by lra. lra.
Qed.

Lemma scale_entry_constant (v : vector) (x : R) :
  In x v -> List.Forall (eq x) v ->
  x * ((1 - 0) / handle_zeros_in_scale
                   (MinMax.maximum v - MinMax.minimum v))
  + (0 - MinMax.minimum v
         * ((1 - 0) / handle_zeros_in_scale
                        (MinMax.maximum v - MinMax.minimum v))) = 0.
Proof.
  intros Hin F.
  assert (MinMax.minimum v = x /\ MinMax.maximum v = x) as [-> ->].
  { destruct v as [|a v]; [done|]. simpl.
    apply List.Forall_cons_iff in F as [<- F].
    by rewrite fold_left_Rmin_const, fold_left_Rmax_const. }
  field. apply handle_zeros_in_scale_neq.
Qed.

(** The scaler on an array with NaN, entry by entry: a NaN stays, and a
    number is scaled by the minimum and the maximum of the numbers of its
    column. *)
Lemma present_In (col : nan_vector) (x : R) :
  In (Some x) col <-> In x (NanMinMax.present col).
Proof.
  induction col as [|[a|] col IH]; simpl; [done| |].
  - rewrite <- IH. split; (intros [H|H]; [left; congruence|by right]).
  - rewrite <- IH. split; [intros [H|H]; [discriminate|done]|by right].
Qed.

Section NanScaling.

Variable X : nan_matrix.
Variable j : nat.
Hypothesis Hj : (j < NanMinMax.n_features X)%nat.

Let v := NanMinMax.present (NanMinMax.column j X).

Lemma nan_transform_row_nth (row : nan_vector) (x : R) :
  In row X ->
  nth j row None = Some x ->
  In x v /\
  nth j (NanMinMax.transform_row X row) None
  = Some (x * ((1 - 0) / handle_zeros_in_scale
                           (MinMax.maximum v - MinMax.minimum v))
          + (0 - MinMax.minimum v
                 * ((1 - 0) / handle_zeros_in_scale
                                (MinMax.maximum v - MinMax.minimum v)))).
Proof.
  intros Hrow Hx.
  assert (In x v) as Hin.
  { apply present_In. unfold NanMinMax.column. apply in_map_iff.
    exists row. by rewrite Hx. }
  split; [done|].
  unfold NanMinMax.transform_row. rewrite nth_map_seq by done. rewrite Hx.
  unfold NanMinMax.min_. rewrite nth_map_seq by done.
  assert (nth j (NanMinMax.data_min X) None = Some (MinMax.minimum v)) as ->.
  { unfold NanMinMax.data_min. rewrite nth_map_seq by done.
    unfold NanMinMax.nanmin. fold v. by destruct v. }
  assert (nth j (NanMinMax.scale_ X) None
          = Some ((1 - 0) / handle_zeros_in_scale
                              (MinMax.maximum v - MinMax.minimum v))) as ->.
  { unfold NanMinMax.scale_.
    change None with
      ((fun r => lift2 Rdiv (Some (1 - 0))
                   (option_map handle_zeros_in_scale r)) None) at 1.
    rewrite map_nth. unfold NanMinMax.data_range.
    rewrite nth_map_seq by done.
    unfold NanMinMax.data_max, NanMinMax.data_min.
    rewrite !nth_map_seq by done.
    unfold NanMinMax.nanmax, NanMinMax.nanmin. fold v. by destruct v. }
  reflexivity.
Qed.

Lemma nan_transform_row_None (row : nan_vector) :
  nth j row None = None -> nth j (NanMinMax.transform_row X row) None = None.
Proof.
  intros Hx. unfold NanMinMax.transform_row.
  rewrite nth_map_seq by done. by rewrite Hx.
Qed.

Lemma nan_transform_row_bounds (row : nan_vector) (z : R) :
  In row X ->
  nth j (NanMinMax.transform_row X row) None = Some z -> 0 <= z <= 1.
Proof.
  intros Hrow Hz. destruct (nth j row None) as [x|] eqn:Hx.
  - destruct (nan_transform_row_nth row x Hrow Hx) as [Hin E].
    rewrite E in Hz. injection Hz as <-. by apply scale_entry_bounds.
  - rewrite nan_transform_row_None in Hz by done. discriminate.
Qed.

End NanScaling.

Lemma nan_transform_row_length (X : nan_matrix) (row : nan_vector) :
  List.length (NanMinMax.transform_row X row) = NanMinMax.n_features X.
Proof.
  unfold NanMinMax.transform_row. by rewrite length_map, length_seq.
Qed.

Lemma scaled_cells_length (y : Z) (ms : list Movie) (m : Movie) :
  In m ms -> List.length (scaled_cells y ms m) = 5%nat.
Proof.
  intros Hm. unfold scaled_cells. rewrite nan_transform_row_length.
  by destruct ms.
Qed.

Lemma continuous_features_Ok (y : Z) (ms : list Movie) :
  List.Forall (fun m => fits_integer (vote_count m)) ms ->
  List.Forall (fun m => vote_count m <> (-1)%Z) ms ->
  continuous_features y ms = Ok (map (scaled_cells y ms) ms).
Proof.
  intros F G.
  destruct (continuous_features_cases y ms)
    as [(_ & _ & E)|[(N & _)|(_ & N & _)]]; [|done..].
  rewrite E. unfold NanMinMax.transform, scaled_cells. by rewrite map_map.
Qed.

(** The array [continuous_features] returns, row by row. *)
Lemma continuous_features_inv (y : Z) (ms : list Movie) (X : nan_matrix) :
  continuous_features y ms = Ok X -> X = map (scaled_cells y ms) ms.
Proof.
  intros H.
  destruct (continuous_features_cases y ms)
    as [(_ & _ & E)|[(_ & E)|(_ & _ & E)]];
    rewrite E in H; [|discriminate..].
  injection H as <-. unfold NanMinMax.transform, scaled_cells.
  by rewrite map_map.
Qed.

(** ** Tokens and vocabulary *)





Lemma split_cut (sep : ascii) (a b : string) :
  Text.contains sep a = false ->
  Text.split sep (a ++ String sep b)%string = a :: Text.split sep b.
Proof.
  induction a as [|c a IH]; simpl.
  - intros _. by rewrite Ascii.eqb_refl.
  - destruct (Ascii.eqb c sep); [done|]. simpl. intros H. by rewrite IH.
Qed.

Lemma mem_In (t : string) (l : list string) :
  Text.mem t l = true <-> In t l.
Proof.
  induction l as [|u l IH]; simpl; [done|].
  rewrite orb_true_iff, IH, String.eqb_eq. intuition.
Qed.

Lemma analyze_In (sw : list string) (doc t : string) :
  In t (Text.analyze sw doc) <->
  In t (Text.tokenizer (Text.lower doc)) /\ ~ In t sw.
Proof.
  unfold Text.analyze. rewrite filter_In, negb_true_iff.
  rewrite <- (mem_In t sw). destruct (Text.mem t sw); intuition congruence.
Qed.

Lemma insert_term_In (t x : string) (l : list string) :
  In x (Text.insert_term t l) <-> x = t \/ In x l.
Proof.
  induction l as [|u l IH]; simpl; [intuition|].
  destruct (String.compare t u) eqn:E; simpl.
  - apply String.compare_eq_iff in E as ->. intuition.
  - intuition.
  - rewrite IH. intuition.
Qed.

Lemma fold_insert_term_In (x : string) (ts : list string) :
  In x (fold_right Text.insert_term [] ts) <-> In x ts.
Proof.
  induction ts as [|t ts IH]; simpl; [done|].
  rewrite insert_term_In, IH. intuition.
Qed.

Lemma vocabulary_In (sw docs : list string) (t : string) :
  In t (Text.vocabulary sw docs) <->
  exists d, In d docs /\ In t (Text.tokenizer (Text.lower d)) /\ ~ In t sw.
Proof.
  unfold Text.vocabulary. rewrite fold_insert_term_In, in_concat.
  split.
  - intros (l & Hl & Ht). apply in_map_iff in Hl as (d & <- & Hd).
    apply analyze_In in Ht. eauto.
  - intros (d & Hd & Ht). exists (Text.analyze sw d). split.
    + apply in_map_iff. eauto.
    + by apply analyze_In.
Qed.

Lemma vocabulary_nil (sw : list string) : Text.vocabulary sw [] = [].
Proof. reflexivity. Qed.

Lemma tfidf_row_length (sw docs : list string) (doc : string) :
  List.length (tfidf_row sw docs doc) = List.length (Text.vocabulary sw docs).
Proof.
  unfold tfidf_row, Tfidf.normalize_row, Tfidf.weighted_row, Tfidf.vocab.
  destruct (Reqb _ _); by rewrite ?length_map.
Qed.

Lemma scaled_row_length (y : Z) (ms : list Movie) (m : Movie) :
  In m ms -> List.length (scaled_row y ms m) = 5%nat.
Proof.
  intros H. unfold scaled_row, MinMax.transform_row.
  rewrite length_map, length_seq. apply continuous_n_features.
  by destruct ms.
Qed.

(** ** Catalogs of movies with equal attributes *)

Lemma feature_row_same (sw : list string) (y : Z) (ms : list Movie)
  (m m' : Movie) :
  same_features m m' -> feature_row sw y ms m = feature_row sw y ms m'.
Proof.
  intros (Hg & Hk & Hc & Hp & Hy & Hr & Hn & Ha).
  unfold feature_row, scaled_row, continuous_row.
  by rewrite Hg, Hk, Hc, Hp, Hy, Hr, Hn, Ha.
Qed.

Lemma map_constant {A B} (f : A -> B) (l : list A) (b : B) :
  List.Forall (fun a => f a = b) l -> map f l = repeat b (List.length l).
Proof. induction 1 as [|a l Ha _ IH]; simpl; [done|]. by rewrite Ha, IH. Qed.

Lemma Rltb_irrefl (x : R) : Rltb x x = false.
Proof. apply Rltb_ge. lra. Qed.

Lemma insert_index_last (v : vector) (i : nat) (l : list nat) :
  List.Forall (fun j => nth i v 0 = nth j v 0) l ->
  insert_index Rltb 0 v i l = l ++ [i].
Proof.
  induction 1 as [|j l Hj _ IH]; simpl; [done|].
  by rewrite Hj, Rltb_irrefl, IH.
Qed.

Lemma nth_repeat_lt (s : R) (n i : nat) :
  (i < n)%nat -> nth i (repeat s n) 0 = s.
Proof.
  revert i. induction n as [|n IH]; intros [|i] H; simpl; try lia; [done|].
  apply IH. lia.
Qed.

(** Equal scores come out of argsort in index order. *)
Lemma argsort_repeat (s : R) (n : nat) : argsort (repeat s n) = seq 0 n.
Proof.
  unfold argsort, argsort_by. rewrite repeat_length.
  assert (forall k, (k <= n)%nat ->
    fold_left (fun acc i => insert_index Rltb 0 (repeat s n) i acc)
      (seq 0 k) [] = seq 0 k) as H; [|by apply H].
  induction k as [|k IH]; intros Hk; [done|].
  rewrite seq_S, fold_left_app, IH by lia. simpl.
  apply insert_index_last. apply List.Forall_forall. intros j Hj.
  apply in_seq in Hj. rewrite !nth_repeat_lt by lia. done.
Qed.

Lemma clones_scores (sw : list string) (y : Z) (ms : list Movie)
  (m0 m : Movie) :
  List.Forall (same_features m0) ms -> In m ms ->
  similarity_scores (map (feature_row sw y ms) ms) (feature_row sw y ms m)
  = repeat (dot (normalize (feature_row sw y ms m0))
                (normalize (feature_row sw y ms m0))) (List.length ms).
Proof.
  intros F Hm. rewrite similarity_scores_eq, map_map.
  rewrite List.Forall_forall in F.
  rewrite <- (feature_row_same sw y ms m0 m) by auto.
  apply map_constant. apply List.Forall_forall. intros a Ha.
  by rewrite <- (feature_row_same sw y ms m0 a) by auto.
Qed.

(** The first call on a fresh instance over a buildable catalog, for an
    indexed title: the target row is that of the indexed movie. *)
Lemma calculate_similarity_init (sw : list string) (y : Z)
  (ms : list Movie) (t : string) (i : nat) (m : Movie) :
  buildable sw ms ->
  title_index ms !! t = Some i ->
  ms !! i = Some m ->
  snd (calculate_similarity sw y (init ms) t)
  = titles_at ms
      (most_similar_indices
         (similarity_scores (map (feature_row sw y ms) ms)
            (feature_row sw y ms m))).
Proof.
  intros Hb Ht Hm.
  rewrite (calculate_similarity_fresh sw y (init ms) t _ eq_refl
             (build_features_eq sw y ms Hb)).
  simpl.
  rewrite (rank_numeric _ t i (map (feature_row sw y ms) ms)
             (feature_row sw y ms m)); [done..|].
  by rewrite map_lookup, Hm.
Qed.

(** In a catalog of such movies every query gets the same index list. *)
Lemma clones_result (sw : list string) (y : Z) (ms : list Movie)
  (m0 : Movie) (t : string) (i : nat) :
  buildable sw ms ->
  List.Forall (same_features m0) ms ->
  title_index ms !! t = Some i ->
  snd (calculate_similarity sw y (init ms) t)
  = titles_at ms (slice 1 6 (rev (seq 0 (List.length ms)))).
Proof.
  intros Hb F Ht.
  pose proof (title_index_lt _ _ _ Ht) as Hlt.
  destruct (lookup_lt_is_Some_2 ms i Hlt) as [m Hm].
  rewrite (calculate_similarity_init sw y ms t i m) by done.
  rewrite (clones_scores sw y ms m0 m F) by (apply list_elem_of_In; by eapply list_elem_of_lookup_2).
  unfold most_similar_indices. by rewrite argsort_repeat.
Qed.

Ltac solve_buildable :=
  split; [repeat split; vm_compute; discriminate
         |repeat constructor; simpl; lia].

Lemma test_catalog_buildable : buildable stop_words_sample test_catalog.
Proof. solve_buildable. Qed.

Lemma twin_catalog_buildable : buildable stop_words_sample twin_catalog.
Proof. solve_buildable. Qed.

Lemma reissue_same_features (t : string) : same_features inception (reissue t).
Proof. repeat split. Qed.

Lemma inception_same_features : same_features inception inception.
Proof. repeat split. Qed.

(** When the target's score is strictly above every other score, the
    target index is at position 0 of the reversed order and is not among
    the chosen indices. *)
Lemma strict_top_excluded (scores : vector) (i : nat) :
  (i < List.length scores)%nat ->
  (forall j, (j < List.length scores)%nat -> j <> i ->
             nth j scores 0 < nth i scores 0) ->
  ~ In i (most_similar_indices scores).
Proof.
  intros Hi Htop.
  pose proof (StronglySorted_rev _ _ (argsort_sorted scores)) as Hs.
  assert (Permutation (rev (argsort scores)) (seq 0 (List.length scores)))
    as Hp by (rewrite <- Permutation_rev; apply argsort_perm).
  assert (List.NoDup (rev (argsort scores))) as Hnd.
  { apply (Permutation_NoDup (Permutation_sym Hp)), List.seq_NoDup. }
  assert (In i (rev (argsort scores))) as Hin.
  { apply (Permutation_in _ (Permutation_sym Hp)), in_seq. lia. }
  unfold most_similar_indices, slice.
  destruct (rev (argsort scores)) as [|x l] eqn:E; [done|].
  assert (x = i) as ->.
  { destruct (decide (x = i)) as [|Hne]; [done|exfalso].
    destruct Hin as [|Hin]; [done|].
    apply StronglySorted_cons in Hs as [Hx _].
    rewrite Forall_forall in Hx. apply list_elem_of_In in Hin.
    specialize (Hx i Hin).
    assert (x < List.length scores)%nat as Hxl.
    { assert (In x (seq 0 (List.length scores))) as Hx'
        by (apply (Permutation_in _ Hp); by left).
      apply in_seq in Hx'. lia. }
    specialize (Htop x Hxl Hne).
    destruct Hx as [Hlt|[Heq _]]; lra. }
  simpl. intros Hc. apply List.NoDup_cons_iff in Hnd as [Hni _].
  apply Hni. rewrite <- (firstn_skipn 5 l). apply in_or_app. by left.
Qed.

(** C1 (the code at the failing input): with [inception] listed twice
    under two titles, the two scores are equal, the reversed argsort puts
    index 1 first, and the query for "Inception" returns "Inception". *)
Theorem twin_query_returns_itself :
  snd (calculate_similarity stop_words_sample 2024 (init twin_catalog)
         "Inception")
  = Ok ["Inception"%string].
Proof.
  rewrite (clones_result stop_words_sample 2024 twin_catalog inception
             "Inception" 0).
  - reflexivity.
  - apply twin_catalog_buildable.
  - repeat constructor; apply reissue_same_features || apply inception_same_features.
  - reflexivity.
Qed.

(** Whatever order a sort leaves two equal scores in, slicing off the
    first of the reversed order keeps index 0 or index 1: one of the two
    queries of a two-row catalog with equal rows is answered by itself. *)
Remark twins_any_order (order : list nat) :
  Permutation order [0; 1]%nat ->
  slice 1 6 (rev order) = [0%nat] \/ slice 1 6 (rev order) = [1%nat].
Proof.
  intros H. pose proof (Permutation_length H) as Hl.
  destruct order as [|a [|b [|c l]]]; simpl in Hl; try lia.
  apply Permutation_length_2_inv in H as [E|E]; injection E as <- <-; auto.
Qed.

(** ** What a call returns *)

Lemma map_Some_inj (x y : vector) : map Some x = map Some y -> x = y.
Proof.
  intros H. apply (f_equal row_numbers) in H.
  rewrite !row_numbers_map_Some in H. by injection H.
Qed.

Lemma rank_inv (self : MovieRecommender) (t : string) (ts : list string) :
  rank self t = Ok ts ->
  exists i X row,
    movie_indices self !! t = Some i /\
    feature_matrix self = Some (numeric X) /\
    X !! i = Some row /\
    titles_at (movies self)
      (most_similar_indices (similarity_scores X row)) = Ok ts.
Proof.
  unfold rank.
  destruct (movie_indices self !! t) as [i|]; [|discriminate].
  destruct (feature_matrix self) as [fm|]; [|discriminate].
  destruct (fm !! i) as [target_row|] eqn:E; [|discriminate].
  destruct (row_numbers target_row) as [x|] eqn:Ex; [|discriminate].
  destruct (numbers fm) as [Y|] eqn:EY; [|discriminate].
  intros H. apply numbers_Some in EY as ->. apply row_numbers_Some in Ex as ->.
  rewrite numeric_lookup in E.
  destruct (Y !! i) as [r|] eqn:Er; [|discriminate].
  injection E as E. apply map_Some_inj in E as ->.
  by exists i, Y, x.
Qed.

(** The call as one case analysis on the cache and on the build. *)
Lemma calculate_similarity_cases (sw : list string) (y : Z)
  (self : MovieRecommender) (t : string) :
  (exists fm, feature_matrix self = Some fm /\
     calculate_similarity sw y self t = (self, rank self t)) \/
  (exists fm, feature_matrix self = None /\
     build_features sw y (movies self) = Ok fm /\
     calculate_similarity sw y self t
     = (set_feature_matrix self fm, rank (set_feature_matrix self fm) t)) \/
  (exists e, feature_matrix self = None /\
     build_features sw y (movies self) = Raise e /\
     calculate_similarity sw y self t = (self, Raise e)).
Proof.
  destruct (feature_matrix self) as [fm|] eqn:E.
  - left. exists fm. split; [done|]. by eapply calculate_similarity_cached.
  - destruct (build_features sw y (movies self)) as [fm|e] eqn:B.
    + right; left. exists fm. split_and!; [done..|].
      by apply calculate_similarity_fresh.
    + right; right. exists e. split_and!; [done..|].
      by apply calculate_similarity_failed.
Qed.

(** A call changes neither the movies nor the index. *)
Lemma calculate_similarity_keeps (sw : list string) (y : Z)
  (self : MovieRecommender) (t : string) :
  movies (fst (calculate_similarity sw y self t)) = movies self /\
  movie_indices (fst (calculate_similarity sw y self t))
  = movie_indices self.
Proof.
  destruct (calculate_similarity_cases sw y self t)
    as [(fm & E & ->)|[(fm & E & B & ->)|(e & E & B & ->)]]; done.
Qed.

(** A second call returns what the first returned and leaves the
    instance as the first left it, whatever the year has become. *)
Lemma calculate_similarity_again (sw : list string) (y y' : Z)
  (self : MovieRecommender) (t : string) :
  calculate_similarity sw y' (fst (calculate_similarity sw y self t)) t
  = calculate_similarity sw y self t.
Proof.
  destruct (calculate_similarity_cases sw y self t)
    as [(fm & E & ->)|[(fm & E & B & ->)|(e & E & B & ->)]]; simpl.
  - by eapply calculate_similarity_cached.
  - by eapply calculate_similarity_cached.
  - apply calculate_similarity_failed; [done|].
    by eapply build_features_year.
Qed.

Lemma most_similar_indices_order (scores : vector) (p q a b : nat) :
  (p < q)%nat ->
  most_similar_indices scores !! p = Some a ->
  most_similar_indices scores !! q = Some b ->
  nth b scores 0 <= nth a scores 0.
Proof.
  intros Hpq Hp Hq.
  pose proof (StronglySorted_slice _ 1 6 _
                (StronglySorted_rev _ _ (argsort_sorted scores))) as Hs.
  pose proof (StronglySorted_lookup _ _ p q a b Hs Hpq Hp Hq) as H.
  by apply precedes_le.
Qed.



(** What a call that returns a list has computed. *)
Lemma calculate_similarity_inv (sw : list string) (y : Z)
  (self : MovieRecommender) (t : string) (ts : list string) :
  snd (calculate_similarity sw y self t) = Ok ts ->
  exists i X row,
    movie_indices self !! t = Some i /\
    feature_matrix (fst (calculate_similarity sw y self t))
    = Some (numeric X) /\
    X !! i = Some row /\
    Forall2 (fun j u => title <$> movies self !! j = Some u)
            (most_similar_indices (similarity_scores X row)) ts.
Proof.
  intros H.
  destruct (calculate_similarity_cases sw y self t)
    as [(fm & E & Heq)|[(fm & E & B & Heq)|(e & _ & _ & Heq)]];
    rewrite Heq in *; simpl in *; [..|discriminate];
    apply rank_inv in H as (i & X & row & Ht & Hf & Hr & Hk);
    exists i, X, row; split_and!; try done; by apply titles_at_inv.
Qed.

(** The exceptions of a call on a consistent instance, with the
    condition each one comes with. *)
Lemma consistent_raises (sw : list string) (y : Z)
  (self : MovieRecommender) (t : string) (e : exn) :
  consistent sw self ->
  snd (calculate_similarity sw y self t) = Raise e ->
  (e = not_found t /\ movie_indices self !! t = None) \/
  (e = contains_nan /\ is_Some (movie_indices self !! t)) \/
  (feature_matrix self = None /\
   build_features sw y (movies self) = Raise e /\
   (e = empty_vocabulary \/ e = TypeError \/ e = contains_infinity)).
Proof.
  intros Hc He.
  pose proof (calculate_similarity_consistent sw y self t Hc) as Hc'.
  assert (forall self' fm,
            consistent sw self' -> feature_matrix self' = Some fm ->
            rank self' t = Raise e ->
            (e = not_found t /\ movie_indices self' !! t = None) \/
            (e = contains_nan /\ is_Some (movie_indices self' !! t))) as Hrank.
  { intros self' fm [Hi Hm] E Hr.
    destruct (rank_error _ _ _ Hr) as [?|[[i Ht] _]]; [by left|right].
    split; [|by eexists].
    destruct (Hm fm E) as [y0 B0].
    pose proof (build_features_length _ _ _ _ B0) as Hlen.
    destruct (numbers fm) as [X|] eqn:EX.
    - apply numbers_Some in EX as ->.
      rewrite numeric_length in Hlen.
      destruct (rank_Ok self' t i X Hi E Hlen Ht) as (? & ts & _ & Hk & _).
      congruence.
    - rewrite (rank_nan self' t i fm Hi E Hlen EX Ht) in Hr.
      by injection Hr. }
  destruct (calculate_similarity_cases sw y self t)
    as [(fm & E & Heq)|[(fm & E & B & Heq)|(e' & E & B & Heq)]];
    rewrite Heq in He, Hc'; simpl in He, Hc'.
  - destruct (Hrank self fm Hc E He) as [?|?]; auto.
  - destruct (Hrank _ fm Hc' eq_refl He) as [?|?]; auto.
  - injection He as <-. right; right.
    pose proof (build_features_Raise _ _ _ _ B) as [_ H]. done.
Qed.

(** ** The claims *)






(** C4 (amended): the returned titles are those at the chosen indices,
    and the chosen indices are in descending score order: a title never
    comes after one whose row scores less.  Where two rows score the same
    the order is the one the sort happens to leave, not the original row
    order.  A second call with the same title returns the same list. *)
Theorem ranking_order (sw : list string) (y y' : Z)
  (self : MovieRecommender) (t : string) (ts : list string) :
  snd (calculate_similarity sw y self t) = Ok ts ->
  (exists i X row,
     movie_indices self !! t = Some i /\
     feature_matrix (fst (calculate_similarity sw y self t))
     = Some (numeric X) /\
     X !! i = Some row /\
     Forall2 (fun j u => title <$> movies self !! j = Some u)
             (most_similar_indices (similarity_scores X row)) ts /\
     forall p q a b,
       (p < q)%nat ->
       most_similar_indices (similarity_scores X row) !! p = Some a ->
       most_similar_indices (similarity_scores X row) !! q = Some b ->
       nth b (similarity_scores X row) 0 <= nth a (similarity_scores X row) 0)
  /\
  snd (calculate_similarity sw y'
         (fst (calculate_similarity sw y self t)) t) = Ok ts.
Proof.
  intros H. split; [|by rewrite calculate_similarity_again].
  destruct (calculate_similarity_inv sw y self t ts H)
    as (i & X & row & Ht & Hf & Hr & F).
  exists i, X, row. split_and!; try done.
  intros p q a b. apply most_similar_indices_order.
Qed.

(** The second of two equal rows is answered by the first. *)
Lemma twin_other_result :
  snd (calculate_similarity stop_words_sample 2024 (init twin_catalog)
         "Inception (IMAX)")
  = Ok ["Inception"]%string.
Proof.
  rewrite (clones_result stop_words_sample 2024 twin_catalog inception
             "Inception (IMAX)" 1).
  - reflexivity.
  - apply twin_catalog_buildable.
  - repeat constructor;
      apply reissue_same_features || apply inception_same_features.
  - reflexivity.
Qed.

Lemma ranking_order_witness :
  (exists i X row,
     movie_indices (init twin_catalog) !! "Inception (IMAX)" = Some i /\
     feature_matrix
       (fst (calculate_similarity stop_words_sample 2024
               (init twin_catalog) "Inception (IMAX)")) = Some (numeric X) /\
     X !! i = Some row /\
     Forall2 (fun j u => title <$> movies (init twin_catalog) !! j = Some u)
             (most_similar_indices (similarity_scores X row))
             ["Inception"]%string /\
     forall p q a b,
       (p < q)%nat ->
       most_similar_indices (similarity_scores X row) !! p = Some a ->
       most_similar_indices (similarity_scores X row) !! q = Some b ->
       nth b (similarity_scores X row) 0 <= nth a (similarity_scores X row) 0)
  /\
  snd (calculate_similarity stop_words_sample 2025
         (fst (calculate_similarity stop_words_sample 2024
                 (init twin_catalog) "Inception (IMAX)"))
         "Inception (IMAX)")
  = Ok ["Inception"]%string.
Proof.
  apply (ranking_order stop_words_sample 2024 2025 (init twin_catalog)
           "Inception (IMAX)").
  apply twin_other_result.
Defined.

(** C4 (as stated, refuted): with [inception] listed twice, rows 0 and 1
    score the same against the query row 0, yet the descending order puts
    index 1 before index 0, and the call returns the title of row 0: the
    tie is not broken by original row order. *)
Lemma tie_not_in_row_order :
  nth 0 (similarity_scores
           (map (feature_row stop_words_sample 2024 twin_catalog)
                twin_catalog)
           (feature_row stop_words_sample 2024 twin_catalog inception)) 0
  = nth 1 (similarity_scores
             (map (feature_row stop_words_sample 2024 twin_catalog)
                  twin_catalog)
             (feature_row stop_words_sample 2024 twin_catalog inception)) 0
  /\
  rev (argsort
         (similarity_scores
            (map (feature_row stop_words_sample 2024 twin_catalog)
                 twin_catalog)
            (feature_row stop_words_sample 2024 twin_catalog inception)))
  = [1; 0]%nat /\
  snd (calculate_similarity stop_words_sample 2024 (init twin_catalog)
         "Inception")
  = Ok ["Inception"]%string.
Proof.
  assert (List.Forall (same_features inception) twin_catalog) as F
    by (repeat constructor;
        apply reissue_same_features || apply inception_same_features).
  rewrite (clones_scores stop_words_sample 2024 twin_catalog inception
             inception F) by (simpl; auto).
  rewrite argsort_repeat. split_and!; [reflexivity..|].
  by rewrite (clones_result stop_words_sample 2024 twin_catalog inception
                "Inception" 0 twin_catalog_buildable F).
Qed.







(** C10: a title that occurs in the list is indexed at its LAST
    occurrence, and a query for it is ranked against the feature row of
    that last movie. *)
Theorem duplicate_title_last (sw : list string) (y : Z) (ms : list Movie)
  (t : string) :
  In t (map title ms) ->
  exists i m,
    movie_indices (init ms) !! t = Some i /\
    ms !! i = Some m /\ title m = t /\
    (forall j m', (i < j)%nat -> ms !! j = Some m' -> title m' <> t) /\
    (buildable sw ms ->
     snd (calculate_similarity sw y (init ms) t)
     = titles_at ms
         (most_similar_indices
            (similarity_scores (map (feature_row sw y ms) ms)
               (feature_row sw y ms m)))).
Proof.
  intros Hin.
  destruct (title_index ms !! t) as [i|] eqn:Ht.
  - pose proof Ht as Hs. apply title_index_Some in Hs as [(m & Hm & Htm) Hlast].
    exists i, m. split_and!; try done.
    intros Hb. by apply (calculate_similarity_init sw y ms t i m).
  - apply title_index_None in Ht. done.
Qed.

Lemma duplicate_title_last_witness :
  exists i m,
    movie_indices (init duplicate_catalog) !! "The Matrix" = Some i /\
    duplicate_catalog !! i = Some m /\ title m = "The Matrix" /\
    (forall j m', (i < j)%nat -> duplicate_catalog !! j = Some m' ->
                  title m' <> "The Matrix") /\
    (buildable stop_words_sample duplicate_catalog ->
     snd (calculate_similarity stop_words_sample 2024
            (init duplicate_catalog) "The Matrix")
     = titles_at duplicate_catalog
         (most_similar_indices
            (similarity_scores
               (map (feature_row stop_words_sample 2024 duplicate_catalog)
                    duplicate_catalog)
               (feature_row stop_words_sample 2024 duplicate_catalog m)))).
Proof.
  apply (duplicate_title_last stop_words_sample 2024 duplicate_catalog
           "The Matrix").
  simpl. auto.
Defined.

(** The index of the duplicated title is that of the later movie. *)
Example duplicate_catalog_index :
  movie_indices (init duplicate_catalog) !! "The Matrix" = Some 2%nat.
Proof. reflexivity. Qed.

(** C5 (amended; numbers as reals): the scaled continuous block has five
    columns (age in years, runtime, popularity, vote average, log1p of
    the vote count).  Every entry of it is a number in [0,1] or NaN, and
    it is NaN exactly for the logarithm of a vote count below -1; the
    numbers of a column whose numbers are all equal are scaled to 0.  The
    bounds are those of the real numbers the float64 values stand for:
    see [scaled_above_one_in_binary64] for float64 itself. *)
Theorem continuous_features_scaled (y : Z) (ms : list Movie)
  (X : nan_matrix) (i j : nat) (m : Movie) :
  continuous_features y ms = Ok X ->
  ms !! i = Some m ->
  (j < 5)%nat ->
  exists row,
    X !! i = Some row /\
    List.length row = 5%nat /\
    (forall z, nth j row None = Some z -> 0 <= z <= 1) /\
    (nth j row None = None <-> j = 4%nat /\ (vote_count m < -1)%Z) /\
    (forall c,
       (forall m' c', In m' ms ->
          nth j (continuous_cells y m') None = Some c' -> c' = c) ->
       forall z, nth j row None = Some z -> z = 0).
Proof.
  intros H Hm Hj. apply continuous_features_inv in H as ->.
  assert (In m ms) as Hin
    by (apply list_elem_of_In; by eapply list_elem_of_lookup_2).
  exists (scaled_cells y ms m). rewrite map_lookup, Hm. split; [done|].
  assert (j < NanMinMax.n_features (map (continuous_cells y) ms))%nat as Hn
    by (destruct ms; [destruct Hin|unfold NanMinMax.n_features; simpl; lia]).
  assert (In (continuous_cells y m) (map (continuous_cells y) ms)) as Hrow
    by (by apply in_map).
  split_and!.
  - by apply scaled_cells_length.
  - intros z Hz. unfold scaled_cells in Hz.
    by apply (nan_transform_row_bounds _ j Hn _ z Hrow).
  - unfold scaled_cells.
    destruct (nth j (continuous_cells y m) None) as [x|] eqn:Hx.
    + destruct (nan_transform_row_nth _ j Hn _ x Hrow Hx) as [_ ->].
      split; [discriminate|]. intros [-> Hv].
      unfold continuous_cells in Hx. simpl in Hx.
      destruct (vote_count m <? -1)%Z eqn:E; [discriminate|].
      apply Z.ltb_ge in E. lia.
    + rewrite nan_transform_row_None by done. split; [|done]. intros _.
      unfold continuous_cells in Hx.
      destruct j as [|[|[|[|[|j]]]]]; simpl in Hx; try discriminate; [|lia].
      split; [done|].
      destruct (vote_count m <? -1)%Z eqn:E; [|discriminate].
      by apply Z.ltb_lt in E.
  - intros c Hc z Hz. unfold scaled_cells in Hz.
    destruct (nth j (continuous_cells y m) None) as [x|] eqn:Hx.
    + destruct (nan_transform_row_nth _ j Hn _ x Hrow Hx) as [Hxv E].
      rewrite E in Hz. injection Hz as <-.
      apply scale_entry_constant; [done|].
      apply List.Forall_forall. intros a Ha.
      apply present_In in Ha. unfold NanMinMax.column in Ha.
      apply in_map_iff in Ha as (r & Hr & Hrin).
      apply in_map_iff in Hrin as (m' & <- & Hm').
      rewrite (Hc m x Hin Hx). symmetry. by apply (Hc m').
    + rewrite nan_transform_row_None in Hz by done. discriminate.
Qed.

Lemma continuous_features_scaled_witness :
  exists row,
    map (scaled_cells 2024 test_catalog) test_catalog !! 1%nat = Some row /\
    List.length row = 5%nat /\
    (forall z, nth 2 row None = Some z -> 0 <= z <= 1) /\
    (nth 2 row None = None <-> 2%nat = 4%nat /\ (vote_count the_matrix < -1)%Z)
    /\
    (forall c,
       (forall m' c', In m' test_catalog ->
          nth 2 (continuous_cells 2024 m') None = Some c' -> c' = c) ->
       forall z, nth 2 row None = Some z -> z = 0).
Proof.
  apply (continuous_features_scaled 2024 test_catalog _ 1 2 the_matrix).
  - apply continuous_features_Ok;
      repeat constructor; unfold fits_integer; simpl; lia.
  - reflexivity.
  - lia.
Defined.

(** C5 (as stated, refuted): in binary64 the scaler's [X * scale_ + min_]
    takes the larger of the two values 0.1 and 1.2 of a column to
    1.0000000000000002, above 1. *)
Lemma scaled_above_one_in_binary64 :
  MinMax64.fit_transform
    [0x1.999999999999ap-4%float; 0x1.3333333333333p+0%float]
  = [0%float; 0x1.0000000000001p+0%float] /\
  PrimFloat.ltb 1
    (nth 1 (MinMax64.fit_transform
              [0x1.999999999999ap-4%float; 0x1.3333333333333p+0%float])
       0%float)
  = true.
Proof. split; vm_compute; reflexivity. Qed.

(** A column of equal raw values: the runtime in the twin catalog. *)
Example constant_column_scaled :
  nth 1 (scaled_row 2024 twin_catalog inception) 0 = 0 /\
  nth 1 (scaled_row 2024 twin_catalog (reissue "Inception (IMAX)")) 0 = 0.
Proof.
  assert (1 < MinMax.n_features (map (continuous_row 2024) twin_catalog))%nat
    as Hn by (unfold MinMax.n_features, twin_catalog; simpl; lia).
  assert (forall r r',
            In r (map (continuous_row 2024) twin_catalog) ->
            In r' (map (continuous_row 2024) twin_catalog) ->
            nth 1 r 0 = nth 1 r' 0) as Hc.
  { intros r r' [<-|[<-|[]]] [<-|[<-|[]]]; reflexivity. }
  split; apply (transform_row_constant _ 1%nat Hn); (simpl; auto) || exact Hc.
Qed.



(** The norms of the example are 5, so the standard formula applies and
    gives 24/25. *)
Example cosine_example :
  norm [3; 4] = 5 /\ norm [4; 3] = 5 /\
  dot [3; 4] [4; 3] / (norm [3; 4] * norm [4; 3]) = 24 / 25.
Proof.
  assert (norm [3; 4] = 5) as H1.
  { unfold norm. simpl. replace (3 * 3 + (4 * 4 + 0)) with (5 * 5) by lra.
    apply sqrt_square. lra. }
  assert (norm [4; 3] = 5) as H2.
  { unfold norm. simpl. replace (4 * 4 + (3 * 3 + 0)) with (5 * 5) by lra.
    apply sqrt_square. lra. }
  rewrite H1, H2. simpl. split_and!; [done|done|lra].
Qed.



(** A cast entry with a space is one term; a stop word is dropped. *)
Example vocabulary_example :
  Text.vocabulary stop_words_sample
    ["Keanu Reeves|Carrie-Anne Moss"; "The|Marlon Brando"]%string
  = ["carrie-anne moss"; "keanu reeves"; "marlon brando"]%string.
Proof. reflexivity. Qed.

(** * Further properties *)

(** ** The title index as a dictionary *)

(** X1: the keys of the index are exactly the titles of the catalog, and
    every value is the position of a movie with that title. *)
Theorem title_index_keys (ms : list Movie) :
  (forall t, movie_indices (init ms) !! t = None <-> ~ In t (map title ms)) /\
  (forall t i, movie_indices (init ms) !! t = Some i ->
               exists m, ms !! i = Some m /\ title m = t).
Proof.
  split.
  - intros t. apply title_index_None.
  - intros t i H. by apply title_index_Some in H as [H _].
Qed.

(** X2: when no title occurs twice, the index sends the title of every
    movie back to the movie's own position. *)
Theorem title_index_round_trip (ms : list Movie) (i : nat) (m : Movie) :
  List.NoDup (map title ms) ->
  ms !! i = Some m ->
  movie_indices (init ms) !! title m = Some i.
Proof.
  intros Hnd Hm. apply title_index_Some. split; [eauto|].
  intros j m' Hlt Hj Heq.
  apply NoDup_ListNoDup in Hnd.
  assert (map title ms !! i = Some (title m)) as Hi
    by (by rewrite map_lookup, Hm).
  assert (map title ms !! j = Some (title m)) as Hj'
    by (by rewrite map_lookup, Hj, <- Heq).
  pose proof (NoDup_lookup _ _ _ _ Hnd Hi Hj'). lia.
Qed.

Lemma test_catalog_titles_NoDup : List.NoDup (map title test_catalog).
Proof.
  repeat constructor; simpl; intuition discriminate.
Qed.

Lemma title_index_round_trip_witness :
  movie_indices (init test_catalog) !! title the_godfather = Some 2%nat.
Proof.
  apply (title_index_round_trip test_catalog 2 the_godfather).
  - apply test_catalog_titles_NoDup.
  - reflexivity.
Defined.

(** ** Outcomes and effects of a call *)

(** X3: on a consistent instance a call raises nothing but five
    exceptions.  The not-found error comes with a title absent from the
    index; the NaN error of [cosine_similarity] comes with an indexed
    title; the vectorizer's error, the TypeError of [np.log1p] and the
    scaler's error for an infinity come from a build that raises, on an
    instance without a matrix.  No call ends in IndexError.  When some
    field leaves no term, every call raises the vectorizer's error and
    the instance stays as it was. *)
Theorem calculate_similarity_errors (sw : list string) (y : Z)
  (self : MovieRecommender) (t : string) :
  consistent sw self ->
  (forall e, snd (calculate_similarity sw y self t) = Raise e ->
     (e = not_found t /\ movie_indices self !! t = None) \/
     (e = contains_nan /\ is_Some (movie_indices self !! t)) \/
     (feature_matrix self = None /\
      build_features sw y (movies self) = Raise e /\
      (e = empty_vocabulary \/ e = TypeError \/ e = contains_infinity))) /\
  snd (calculate_similarity sw y self t) <> Raise IndexError /\
  (~ has_terms sw (movies self) ->
   calculate_similarity sw y self t = (self, Raise empty_vocabulary)).
Proof.
  intros Hc. split_and!.
  - intros e. by apply consistent_raises.
  - intros He. apply (consistent_raises sw y self t _ Hc) in He.
    destruct (not_found_neq t) as (_ & _ & _ & _ & ?).
    destruct He as [[? _]|[[? _]|(_ & _ & [?|[?|?]])]];
      congruence || discriminate.
  - intros Hn.
    destruct (calculate_similarity_cases sw y self t)
      as [(fm & E & Heq)|[(fm & E & B & Heq)|(e & E & B & Heq)]].
    + destruct Hc as [_ Hm]. destruct (Hm fm E) as [y0 B0].
      apply build_features_inv in B0 as [[Ht _] _]. done.
    + apply build_features_inv in B as [[Ht _] _]. done.
    + rewrite Heq. f_equal. f_equal.
      destruct (build_features_cases sw y (movies self))
        as [(_ & E')|[(_ & E')|[(Ht & _)|(Ht & _)]]]; [congruence..|done|done].
Qed.

Lemma calculate_similarity_errors_witness :
  (forall e, snd (calculate_similarity stop_words_sample 2024 (init [up])
                    "Up") = Raise e ->
     (e = not_found "Up" /\ movie_indices (init [up]) !! "Up" = None) \/
     (e = contains_nan /\ is_Some (movie_indices (init [up]) !! "Up")) \/
     (feature_matrix (init [up]) = None /\
      build_features stop_words_sample 2024 (movies (init [up])) = Raise e /\
      (e = empty_vocabulary \/ e = TypeError \/ e = contains_infinity))) /\
  snd (calculate_similarity stop_words_sample 2024 (init [up]) "Up")
  <> Raise IndexError /\
  (~ has_terms stop_words_sample (movies (init [up])) ->
   calculate_similarity stop_words_sample 2024 (init [up]) "Up"
   = (init [up], Raise empty_vocabulary)).
Proof.
  apply (calculate_similarity_errors stop_words_sample 2024 (init [up]) "Up").
  apply init_consistent.
Defined.

(** X4: a call never changes the movies or the index; an instance that
    holds a matrix is returned as it is (the matrix is built at most once);
    and a consistent instance stays consistent. *)
Theorem calculate_similarity_effects (sw : list string) (y : Z)
  (self : MovieRecommender) (t : string) :
  movies (fst (calculate_similarity sw y self t)) = movies self /\
  movie_indices (fst (calculate_similarity sw y self t))
  = movie_indices self /\
  (is_Some (feature_matrix self) ->
   fst (calculate_similarity sw y self t) = self) /\
  (consistent sw self ->
   consistent sw (fst (calculate_similarity sw y self t))).
Proof.
  split_and!.
  - apply calculate_similarity_keeps.
  - apply calculate_similarity_keeps.
  - intros [fm E]. by rewrite (calculate_similarity_cached _ _ _ _ _ E).
  - apply calculate_similarity_consistent.
Qed.

(** X5: what a call returns is a list of at most five titles of the
    catalog, taken from pairwise different rows; when no title occurs
    twice in the catalog, none occurs twice in the result. *)
Theorem recommendations_from_catalog (sw : list string) (y : Z)
  (self : MovieRecommender) (t : string) (ts : list string) :
  snd (calculate_similarity sw y self t) = Ok ts ->
  (List.length ts <= 5)%nat /\
  List.Forall (fun u => In u (map title (movies self))) ts /\
  (List.NoDup (map title (movies self)) -> List.NoDup ts).
Proof.
  intros H.
  apply calculate_similarity_inv in H as (i & fm & row & _ & _ & _ & F).
  pose proof (most_similar_indices_NoDup (similarity_scores fm row)) as Hnd.
  pose proof (most_similar_indices_length (similarity_scores fm row)) as Hl.
  set (idxs := most_similar_indices (similarity_scores fm row)) in *.
  split_and!.
  - rewrite <- (Forall2_length _ _ _ F). lia.
  - apply List.Forall_forall. intros u Hu. apply list_elem_of_In in Hu.
    apply list_elem_of_lookup in Hu as [p Hp].
    destruct (Forall2_lookup_r _ _ _ _ _ F Hp) as (j & _ & Hj).
    destruct (movies self !! j) as [m|] eqn:Hm; [|discriminate].
    injection Hj as <-. apply in_map. apply list_elem_of_In.
    by eapply list_elem_of_lookup_2.
  - intros Ht. apply NoDup_ListNoDup in Ht. apply NoDup_ListNoDup.
    apply NoDup_alt. intros p q u Hp Hq.
    destruct (Forall2_lookup_r _ _ _ _ _ F Hp) as (a & Ha & Hta).
    destruct (Forall2_lookup_r _ _ _ _ _ F Hq) as (b & Hb & Htb).
    assert (a = b) as ->.
    { apply (NoDup_lookup _ _ _ u Ht); by rewrite map_lookup. }
    exact (NoDup_lookup _ _ _ _ Hnd Ha Hb).
Qed.

Lemma recommendations_from_catalog_witness :
  (List.length ["Inception"]%string <= 5)%nat /\
  List.Forall (fun u => In u (map title (movies (init twin_catalog))))
    ["Inception"]%string /\
  (List.NoDup (map title (movies (init twin_catalog))) ->
   List.NoDup ["Inception"]%string).
Proof.
  apply (recommendations_from_catalog stop_words_sample 2024
           (init twin_catalog) "Inception (IMAX)").
  apply twin_other_result.
Defined.

(** X6: when no title occurs twice and the target's score is strictly
    above the score of every other row, the call returns a list that does
    not contain the queried title. *)
Theorem strict_top_title_excluded (sw : list string) (y : Z)
  (self : MovieRecommender) (t : string) (i : nat) (fm : matrix)
  (row : vector) :
  movie_indices self = title_index (movies self) ->
  List.NoDup (map title (movies self)) ->
  feature_matrix self = Some (numeric fm) ->
  List.length fm = List.length (movies self) ->
  movie_indices self !! t = Some i ->
  fm !! i = Some row ->
  (forall j, (j < List.length fm)%nat -> j <> i ->
     nth j (similarity_scores fm row) 0 < nth i (similarity_scores fm row) 0) ->
  exists ts,
    snd (calculate_similarity sw y self t) = Ok ts /\
    List.Forall (fun u => u <> t) ts.
Proof.
  intros Hidx Hnd Hfm Hlen Ht Hrow Htop.
  rewrite (calculate_similarity_cached _ _ _ _ _ Hfm). simpl.
  set (idxs := most_similar_indices (similarity_scores fm row)).
  destruct (titles_at_Ok (movies self) idxs) as (ts & Hts & F).
  { apply List.Forall_forall. intros j Hj.
    apply most_similar_indices_In in Hj.
    rewrite similarity_scores_length in Hj. lia. }
  exists ts. split.
  { by rewrite (rank_numeric self t i fm row). }
  assert (~ In i idxs) as Hni.
  { apply strict_top_excluded.
    - rewrite similarity_scores_length. by eapply lookup_lt_Some.
    - intros j Hj. apply Htop. by rewrite similarity_scores_length in Hj. }
  rewrite Hidx in Ht. apply title_index_Some in Ht as [(m & Hm & Htm) _].
  apply NoDup_ListNoDup in Hnd.
  apply List.Forall_forall. intros u Hu ->. apply Hni.
  apply list_elem_of_In in Hu. apply list_elem_of_lookup in Hu as [p Hp].
  destruct (Forall2_lookup_r _ _ _ _ _ F Hp) as (a & Ha & Hta).
  assert (a = i) as ->.
  { apply (NoDup_lookup _ _ _ t Hnd); rewrite map_lookup; [done|].
    by rewrite Hm, <- Htm. }
  apply list_elem_of_In. by eapply list_elem_of_lookup_2.
Qed.

Lemma norm_unit_example : norm [1; 0] = 1.
Proof.
  unfold norm. simpl. replace (1 * 1 + (0 * 0 + 0)) with 1 by lra.
  apply sqrt_1.
Qed.

Lemma strict_top_title_excluded_witness :
  exists ts,
    snd (calculate_similarity stop_words_sample 2024 prebuilt "Inception")
    = Ok ts /\
    List.Forall (fun u => u <> "Inception"%string) ts.
Proof.
  apply (strict_top_title_excluded stop_words_sample 2024 prebuilt
           "Inception" 0 [[1; 0]; [0; 1]] [1; 0]); try reflexivity.
  - repeat constructor; simpl; intuition discriminate.
  - intros j Hj Hne. simpl in Hj.
    assert (j = 1%nat) as -> by lia.
    rewrite similarity_scores_eq.
    change (dot (normalize [1; 0]) (normalize [0; 1])
            < dot (normalize [1; 0]) (normalize [1; 0])).
    rewrite cosine_self, cosine_entry, norm_unit_example.
    unfold Reqb. destruct (Req_dec_T 1 0) as [E|_]; [lra|].
    simpl. unfold Rdiv. lra.
Defined.

(** ** The feature matrix *)

Lemma tfidf_idf_pos (sw docs : list string) (t : string) :
  1 <= Tfidf.idf sw docs t.
Proof.
  unfold Tfidf.idf.
  assert (Tfidf.document_frequency sw docs t <= List.length docs)%nat as Hle.
  { unfold Tfidf.document_frequency. apply List.filter_length_le. }
  apply le_INR in Hle.
  pose proof (pos_INR (Tfidf.document_frequency sw docs t)) as Hp.
  assert (1 <= (1 + INR (List.length docs))
               / (1 + INR (Tfidf.document_frequency sw docs t))) as H1.
  { apply Rmult_le_reg_r
      with (1 + INR (Tfidf.document_frequency sw docs t)); [lra|].
    unfold Rdiv. rewrite Rmult_assoc, Rinv_l by lra. lra. }
  destruct H1 as [H1|H1].
  - apply ln_increasing in H1; [|lra]. rewrite ln_1 in H1. lra.
  - rewrite <- H1, ln_1. lra.
Qed.

Lemma weighted_row_nonneg (sw docs : list string) (doc : string) :
  List.Forall (fun x => 0 <= x) (Tfidf.weighted_row sw docs doc).
Proof.
  unfold Tfidf.weighted_row. apply List.Forall_forall. intros x Hx.
  apply in_map_iff in Hx as (t & <- & _).
  pose proof (tfidf_idf_pos sw docs t). pose proof (pos_INR (Tfidf.term_count sw t doc)).
  apply Rmult_le_pos; lra.
Qed.

Lemma dot_self_entry (x : vector) (a : R) : In a x -> a * a <= dot x x.
Proof.
  induction x as [|b x IH]; simpl; [done|].
  pose proof (dot_self_nonneg x) as Hx. intros [->|Hin].
  - lra.
  - specialize (IH Hin). nra.
Qed.

Lemma normalize_row_unit_interval (row : vector) :
  List.Forall (fun x => 0 <= x) row ->
  List.Forall (fun x => 0 <= x <= 1) (Tfidf.normalize_row row).
Proof.
  intros Hpos. unfold Tfidf.normalize_row.
  destruct (Reqb (dot row row) 0) eqn:E.
  - apply Reqb_eq, dot_self_zero in E.
    eapply List.Forall_impl; [|exact E]. intros a <-. lra.
  - assert (dot row row <> 0) as Hne by (intros H; apply Reqb_eq in H; congruence).
    pose proof (dot_self_nonneg row) as Hd.
    assert (0 < sqrt (dot row row)) as Hs by (apply sqrt_lt_R0; lra).
    rewrite List.Forall_forall in Hpos.
    apply List.Forall_forall. intros x Hx.
    apply in_map_iff in Hx as (a & <- & Ha).
    specialize (Hpos a Ha). pose proof (dot_self_entry row a Ha) as Hsq.
    assert (a <= sqrt (dot row row)) as Hle.
    { rewrite <- (sqrt_square a) by done. by apply sqrt_le_1_alt. }
    split.
    + apply Rmult_le_pos; [done|]. left. by apply Rinv_0_lt_compat.
    + apply Rmult_le_reg_r with (sqrt (dot row row)); [done|].
      unfold Rdiv. rewrite Rmult_assoc, Rinv_l by lra. lra.
Qed.

Lemma tfidf_row_unit_interval (sw docs : list string) (doc : string) :
  List.Forall (fun x => 0 <= x <= 1) (tfidf_row sw docs doc).
Proof. apply normalize_row_unit_interval, weighted_row_nonneg. Qed.

Lemma scaled_row_unit_interval (y : Z) (ms : list Movie) (m : Movie) :
  In m ms -> List.Forall (fun x => 0 <= x <= 1) (scaled_row y ms m).
Proof.
  intros Hm. unfold scaled_row.
  apply List.Forall_forall. intros x Hx.
  apply In_nth with (d := 0) in Hx as (j & Hj & <-).
  fold (scaled_row y ms m) in *.
  unfold scaled_row in Hj. unfold MinMax.transform_row in Hj.
  rewrite length_map, length_seq in Hj.
  apply (transform_row_bounds _ j Hj). by apply in_map.
Qed.

Lemma feature_row_unit_interval (sw : list string) (y : Z) (ms : list Movie)
  (m : Movie) :
  In m ms -> List.Forall (fun x => 0 <= x <= 1) (feature_row sw y ms m).
Proof.
  intros Hm. unfold feature_row.
  apply List.Forall_app. split; [|by apply scaled_row_unit_interval].
  apply List.Forall_app. split; [|apply tfidf_row_unit_interval].
  apply List.Forall_app. split; apply tfidf_row_unit_interval.
Qed.

(** X7: the matrix the build stores has one row per movie, every row has
    as many entries as the three vocabularies have terms plus five, and
    every entry is a number in [0,1] or NaN; when no vote count is
    negative every entry is a number. *)
Theorem feature_matrix_shape (sw : list string) (y : Z) (ms : list Movie)
  (fm : nan_matrix) :
  build_features sw y ms = Ok fm ->
  List.length fm = List.length ms /\
  List.Forall
    (fun row =>
       List.length row
       = (List.length (Text.vocabulary sw (map genres ms))
          + List.length (Text.vocabulary sw (map keywords ms))
          + List.length (Text.vocabulary sw (map cast ms)) + 5)%nat /\
       List.Forall (fun c => forall x, c = Some x -> 0 <= x <= 1) row) fm /\
  (List.Forall (fun m => (0 <= vote_count m)%Z) ms ->
   fm = numeric (map (feature_row sw y ms) ms)).
Proof.
  intros H. split; [by eapply build_features_length|].
  apply build_features_inv in H as [Hb ->]. split.
  - apply List.Forall_forall. intros row Hrow.
    apply in_map_iff in Hrow as (m & <- & Hm). unfold feature_cells. split.
    + rewrite length_app, length_map, !length_app, !tfidf_row_length.
      rewrite scaled_cells_length by done. lia.
    + apply List.Forall_app. split.
      * apply List.Forall_forall. intros c Hc x ->.
        apply in_map_iff in Hc as (x' & [= ->] & Hx).
        pose proof (feature_row_unit_interval sw y ms m Hm) as Hu.
        unfold feature_row in Hu. apply List.Forall_app in Hu as [Hu _].
        rewrite List.Forall_forall in Hu. by apply Hu.
      * apply List.Forall_forall. intros c Hc x ->.
        apply In_nth with (d := None) in Hc as (j & Hj & Hc).
        unfold scaled_cells in Hj, Hc.
        rewrite nan_transform_row_length in Hj.
        apply (nan_transform_row_bounds _ j Hj _ x (in_map _ _ _ Hm) Hc).
  - intros Hv. unfold numeric. rewrite map_map. apply map_ext_in.
    intros m Hm. by apply feature_cells_numeric.
Qed.

Lemma feature_matrix_shape_witness :
  List.length (numeric (map (feature_row stop_words_sample 2024 test_catalog)
                          test_catalog))
  = List.length test_catalog /\
  List.Forall
    (fun row =>
       List.length row
       = (List.length (Text.vocabulary stop_words_sample
                         (map genres test_catalog))
          + List.length (Text.vocabulary stop_words_sample
                           (map keywords test_catalog))
          + List.length (Text.vocabulary stop_words_sample
                           (map cast test_catalog)) + 5)%nat /\
       List.Forall (fun c => forall x, c = Some x -> 0 <= x <= 1) row)
    (numeric (map (feature_row stop_words_sample 2024 test_catalog)
                test_catalog)) /\
  (List.Forall (fun m => (0 <= vote_count m)%Z) test_catalog ->
   numeric (map (feature_row stop_words_sample 2024 test_catalog)
              test_catalog)
   = numeric (map (feature_row stop_words_sample 2024 test_catalog)
                test_catalog)).
Proof.
  apply (feature_matrix_shape stop_words_sample 2024 test_catalog).
  apply build_features_eq, test_catalog_buildable.
Defined.

Lemma dot_nonneg (x y : vector) :
  List.Forall (fun a => 0 <= a) x -> List.Forall (fun a => 0 <= a) y ->
  0 <= dot x y.
Proof.
  intros Hx. revert y. induction Hx as [|a x Ha _ IH]; intros y Hy; simpl.
  - lra.
  - destruct Hy as [|b y Hb Hy]; [lra|].
    specialize (IH y Hy). nra.
Qed.

(** X8: every cosine score computed against a built matrix lies in
    [0,1]. *)
Theorem similarity_scores_unit_interval (sw : list string) (y : Z)
  (ms : list Movie) (fm : matrix) (i : nat) (row : vector) :
  build_features sw y ms = Ok (numeric fm) ->
  fm !! i = Some row ->
  List.length (similarity_scores fm row) = List.length ms /\
  List.Forall (fun s => 0 <= s <= 1) (similarity_scores fm row).
Proof.
  intros H Hrow. apply build_features_numeric in H as [_ ->]. split.
  { by rewrite similarity_scores_length, length_map. }
  assert (forall r, In r (map (feature_row sw y ms) ms) ->
                    List.Forall (fun x => 0 <= x <= 1) r) as Hsh.
  { intros r Hr.
    apply in_map_iff in Hr as (m & <- & Hm).
    by apply feature_row_unit_interval. }
  assert (List.Forall (fun a => 0 <= a) row) as Hpos.
  { apply list_elem_of_lookup_2, list_elem_of_In, Hsh in Hrow as Hr.
    eapply List.Forall_impl; [|exact Hr]. simpl. intros a Ha. lra. }
  rewrite similarity_scores_eq. apply List.Forall_forall. intros s Hs.
  apply in_map_iff in Hs as (r & <- & Hr).
  assert (List.Forall (fun a => 0 <= a) r) as Hposr.
  { apply Hsh in Hr.
    eapply List.Forall_impl; [|exact Hr]. simpl. intros a Ha. lra. }
  split.
  - rewrite cosine_entry.
    pose proof (dot_nonneg row r Hpos Hposr) as Hd.
    pose proof (norm_nonneg row) as Hn1. pose proof (norm_nonneg r) as Hn2.
    assert (0 < handle_zeros_in_scale (norm row)) as H1.
    { unfold handle_zeros_in_scale. destruct (Reqb (norm row) 0) eqn:E; [lra|].
      assert (norm row <> 0) by (intros D; apply Reqb_eq in D; congruence). lra. }
    assert (0 < handle_zeros_in_scale (norm r)) as H2.
    { unfold handle_zeros_in_scale. destruct (Reqb (norm r) 0) eqn:E; [lra|].
      assert (norm r <> 0) by (intros D; apply Reqb_eq in D; congruence). lra. }
    apply Rmult_le_pos; [done|]. left. apply Rinv_0_lt_compat.
    by apply Rmult_lt_0_compat.
  - pose proof (cosine_le_self row r) as Hle. rewrite cosine_self in Hle.
    destruct (Reqb (norm row) 0); lra.
Qed.

Lemma similarity_scores_unit_interval_witness :
  List.length
    (similarity_scores
       (map (feature_row stop_words_sample 2024 test_catalog) test_catalog)
       (feature_row stop_words_sample 2024 test_catalog inception))
  = List.length test_catalog /\
  List.Forall (fun s => 0 <= s <= 1)
    (similarity_scores
       (map (feature_row stop_words_sample 2024 test_catalog) test_catalog)
       (feature_row stop_words_sample 2024 test_catalog inception)).
Proof.
  apply (similarity_scores_unit_interval stop_words_sample 2024 test_catalog
           _ 0).
  - apply build_features_eq, test_catalog_buildable.
  - reflexivity.
Defined.

(** ** The vocabulary *)

Lemma ascii_compare_lt_trans (a b c : ascii) :
  Ascii.compare a b = Lt -> Ascii.compare b c = Lt -> Ascii.compare a c = Lt.
Proof.
  unfold Ascii.compare. rewrite !N.compare_lt_iff. lia.
Qed.

Lemma string_compare_lt_trans (s t u : string) :
  String.compare s t = Lt -> String.compare t u = Lt ->
  String.compare s u = Lt.
Proof.
  revert t u. induction s as [|a s IH]; intros [|b t] [|c u]; simpl;
    try done.
  destruct (Ascii.compare a b) eqn:Eab; try discriminate;
    destruct (Ascii.compare b c) eqn:Ebc; try discriminate.
  - apply Ascii.compare_eq_iff in Eab as ->.
    apply Ascii.compare_eq_iff in Ebc as ->.
    unfold Ascii.compare. rewrite N.compare_refl. apply IH.
  - apply Ascii.compare_eq_iff in Eab as ->. by rewrite Ebc.
  - apply Ascii.compare_eq_iff in Ebc as <-. by rewrite Eab.
  - by rewrite (ascii_compare_lt_trans a b c).
Qed.

Lemma string_compare_refl (s : string) : String.compare s s = Eq.
Proof.
  induction s as [|a s IH]; simpl; [done|].
  unfold Ascii.compare. by rewrite N.compare_refl.
Qed.

Lemma insert_term_sorted (t : string) (l : list string) :
  StronglySorted (fun a b => String.compare a b = Lt) l ->
  StronglySorted (fun a b => String.compare a b = Lt) (Text.insert_term t l).
Proof.
  induction 1 as [|u l Hs IH Hu]; simpl; [repeat constructor|].
  destruct (String.compare t u) eqn:E.
  - by constructor.
  - constructor; [by constructor|]. constructor; [done|].
    eapply Forall_impl; [exact Hu|]. intros x Hx.
    by eapply string_compare_lt_trans.
  - constructor; [done|].
    apply Forall_forall. intros x Hx. apply list_elem_of_In, insert_term_In in Hx.
    destruct Hx as [->|Hx].
    + rewrite String.compare_antisym, E. done.
    + rewrite Forall_forall in Hu. apply Hu. by apply list_elem_of_In.
Qed.

(** X9: the vocabulary lists its terms in strictly increasing order, so no
    term has two columns. *)
Theorem vocabulary_sorted (sw docs : list string) :
  StronglySorted (fun a b => String.compare a b = Lt)
    (Text.vocabulary sw docs) /\
  List.NoDup (Text.vocabulary sw docs).
Proof.
  assert (StronglySorted (fun a b => String.compare a b = Lt)
            (Text.vocabulary sw docs)) as Hs.
  { unfold Text.vocabulary.
    induction (concat (map (Text.analyze sw) docs)) as [|t ts IH]; simpl.
    - constructor.
    - by apply insert_term_sorted. }
  split; [done|].
  induction Hs as [|u l Hs IH Hu]; constructor; [|done].
  intros Hin. rewrite Forall_forall in Hu.
  apply list_elem_of_In, Hu in Hin. by rewrite string_compare_refl in Hin.
Qed.

(** ** argsort *)

(** X10: argsort returns every index of the scores exactly once, in
    ascending order of score. *)
Theorem argsort_ascending (v : vector) :
  Permutation (argsort v) (seq 0 (List.length v)) /\
  forall p q a b,
    (p < q)%nat -> argsort v !! p = Some a -> argsort v !! q = Some b ->
    nth a v 0 <= nth b v 0.
Proof.
  split; [apply argsort_perm|].
  intros p q a b Hpq Hp Hq. apply precedes_le.
  exact (StronglySorted_lookup _ _ p q a b (argsort_sorted v) Hpq Hp Hq).
Qed.

(** ** Min-max scaling, column by column *)


Lemma fold_left_Rmax_In (v : vector) (x : R) : In (fold_left Rmax v x) (x :: v).
Proof.
  revert x. induction v as [|b v IH]; intros x; simpl; [by left|].
  destruct (IH (Rmax x b)) as [H|H]; [|by right; right].
  rewrite <- H. unfold Rmax. destruct (Rle_dec x b); auto.
Qed.




Lemma maximum_In (v : vector) : v <> [] -> In (MinMax.maximum v) v.
Proof. destruct v as [|x v]; [done|]. intros _. apply fold_left_Rmax_In. Qed.

Section Column.

Variable y : Z.
Variable ms : list Movie.
Variable j : nat.
Hypothesis Hj : (j < 5)%nat.

Let raw (m : Movie) : R := nth j (continuous_row y m) 0.
Let col : vector := MinMax.column j (map (continuous_row y) ms).
Let lo : R := MinMax.minimum col.
Let hi : R := MinMax.maximum col.

Lemma column_raw : col = map raw ms.
Proof. unfold col, MinMax.column. by rewrite map_map. Qed.

Lemma raw_bounds (m : Movie) : In m ms -> lo <= raw m <= hi.
Proof.
  intros Hm. assert (In (raw m) col) as Hin
    by (rewrite column_raw; by apply in_map).
  split; [by apply minimum_le|by apply maximum_ge].
Qed.

Lemma scaled_row_nth (m : Movie) :
  In m ms ->
  nth j (scaled_row y ms m) 0 = (raw m - lo) / handle_zeros_in_scale (hi - lo).
Proof.
  intros Hm. unfold scaled_row. apply transform_row_nth.
  rewrite continuous_n_features; [done|]. by destruct ms.
Qed.




Lemma scaled_maximum (m m0 : Movie) :
  In m ms -> In m0 ms -> raw m0 <> raw m ->
  (forall m', In m' ms -> raw m' <= raw m) ->
  nth j (scaled_row y ms m) 0 = 1.
Proof.
  intros Hm Hm0 Hne Hup. rewrite scaled_row_nth by done.
  assert (hi = raw m) as E.
  { pose proof (raw_bounds m Hm) as [_ Hb].
    assert (In hi col) as Hin
      by (apply maximum_In; rewrite column_raw; by destruct ms).
    rewrite column_raw in Hin. apply in_map_iff in Hin as (m' & E & Hm').
    specialize (Hup m' Hm'). lra. }
  pose proof (raw_bounds m0 Hm0) as [Hlo _]. specialize (Hup m0 Hm0).
  assert (hi - lo <> 0) as Hr by lra.
  rewrite handle_zeros_in_scale_nonzero by done. rewrite E. field. lra.
Qed.

End Column.





(** The longest of the three test movies has scaled runtime 1. *)
Example longest_runtime_scaled :
  nth 1 (scaled_row 2024 test_catalog the_godfather) 0 = 1.
Proof.
  apply (scaled_maximum 2024 test_catalog 1 ltac:(lia) the_godfather inception).
  - simpl. auto.
  - simpl. auto.
  - simpl. lra.
  - intros m' [<-|[<-|[<-|[]]]]; simpl; lra.
Qed.

(** ** TF-IDF rows *)

Lemma term_count_pos (sw : list string) (t doc : string) :
  In t (Text.analyze sw doc) -> (1 <= Tfidf.term_count sw t doc)%nat.
Proof.
  intros H. unfold Tfidf.term_count.
  assert (In t (List.filter (String.eqb t) (Text.analyze sw doc))) as Hin.
  { apply filter_In. split; [done|apply String.eqb_refl]. }
  destruct (List.filter (String.eqb t) (Text.analyze sw doc)); [done|].
  simpl. lia.
Qed.

Lemma analyze_vocabulary (sw docs : list string) (doc t : string) :
  In doc docs -> In t (Text.analyze sw doc) -> In t (Text.vocabulary sw docs).
Proof.
  intros Hd Ht. apply vocabulary_In. exists doc. split; [done|].
  by apply analyze_In.
Qed.

(** X13 (numbers as reals): a TF-IDF row has Euclidean norm 1 when the
    field value has at least one term, and is all zeros when it has none
    (every token on the stop list). *)
Theorem tfidf_row_norm (sw docs : list string) (doc : string) :
  In doc docs ->
  (Text.analyze sw doc <> [] ->
   dot (tfidf_row sw docs doc) (tfidf_row sw docs doc) = 1) /\
  (Text.analyze sw doc = [] ->
   List.Forall (eq 0) (tfidf_row sw docs doc)).
Proof.
  intros Hd. unfold tfidf_row, Tfidf.normalize_row. split.
  - intros Hne.
    destruct (Text.analyze sw doc) as [|t ts] eqn:E; [done|].
    assert (In t (Text.analyze sw doc)) as Ht by (rewrite E; by left).
    pose proof (term_count_pos sw t doc Ht) as Hc. apply le_INR in Hc.
    pose proof (tfidf_idf_pos sw docs t) as Hi.
    set (e := INR (Tfidf.term_count sw t doc) * Tfidf.idf sw docs t).
    assert (1 <= e) as He by (unfold e; simpl in Hc; nra).
    assert (In e (Tfidf.weighted_row sw docs doc)) as Hin.
    { unfold Tfidf.weighted_row. apply in_map_iff. exists t. split; [done|].
      by apply (analyze_vocabulary sw docs doc). }
    pose proof (dot_self_entry _ _ Hin) as Hsq.
    set (row := Tfidf.weighted_row sw docs doc) in *.
    assert (0 < dot row row) as Hpos by nra.
    destruct (Reqb (dot row row) 0) eqn:D.
    + apply Reqb_eq in D. lra.
    + assert (0 < sqrt (dot row row)) as Hs by (by apply sqrt_lt_R0).
      rewrite dot_scaled by lra. rewrite sqrt_sqrt by lra. field. lra.
  - intros E.
    assert (List.Forall (eq 0) (Tfidf.weighted_row sw docs doc)) as Hz.
    { unfold Tfidf.weighted_row. apply List.Forall_forall. intros x Hx.
      apply in_map_iff in Hx as (t & <- & _).
      unfold Tfidf.term_count. rewrite E. simpl. ring. }
    pose proof Hz as Hd0. apply dot_self_zero in Hd0.
    apply Reqb_eq in Hd0. by rewrite Hd0.
Qed.

Lemma tfidf_row_norm_witness :
  (Text.analyze stop_words_sample "Action|Adventure" <> [] ->
   dot (tfidf_row stop_words_sample (map genres test_catalog)
          "Action|Adventure")
       (tfidf_row stop_words_sample (map genres test_catalog)
          "Action|Adventure") = 1) /\
  (Text.analyze stop_words_sample "Action|Adventure" = [] ->
   List.Forall (eq 0)
     (tfidf_row stop_words_sample (map genres test_catalog)
        "Action|Adventure")).
Proof.
  apply (tfidf_row_norm stop_words_sample (map genres test_catalog)
           "Action|Adventure").
  simpl. auto.
Defined.

(** ** clean_text *)

Example words_example :
  words "  The   Dark Knight " = ["The"; "Dark"; "Knight"]%string.
Proof. reflexivity. Qed.

Lemma words_space (c : ascii) (s : string) :
  is_space c = true -> words (String c s) = words s.
Proof. intros H. simpl. by rewrite H. Qed.

Lemma words_unfold (c : ascii) (s : string) :
  words (String c s)
  = if is_space c then words s
    else match s with
         | EmptyString => [String c EmptyString]
         | String d _ =>
             if is_space d then String c EmptyString :: words s
             else match words s with
                  | [] => [String c EmptyString]
                  | w :: ws => String c w :: ws
                  end
         end.
Proof. reflexivity. Qed.

(** A character that is not whitespace opens a word. *)
Lemma words_letter (c : ascii) (s : string) :
  is_space c = false ->
  exists w ws, words (String c s) = String c w :: ws /\
               (forall d s', s = String d s' -> is_space d = true ->
                             w = EmptyString /\ ws = words s) /\
               (forall d s', s = String d s' -> is_space d = false ->
                             words s = w :: ws) /\
               (s = EmptyString -> w = EmptyString /\ ws = []).
Proof.
  intros Hc. revert c Hc. induction s as [|d s IH]; intros c Hc.
  - exists EmptyString, []. simpl. rewrite Hc. split_and!; try done.
  - rewrite (words_unfold c (String d s)), Hc.
    destruct (is_space d) eqn:Hd.
    + exists EmptyString, (words (String d s)). split_and!; try done.
      intros d' s' [= <- <-] Hd'. congruence.
    + destruct (IH d Hd) as (w & ws & Hw & _). rewrite Hw.
      exists (String d w), ws. split_and!; try done.
      intros d' s' [= <- <-] Hd'. congruence.
Qed.

Lemma words_are_words (s : string) : List.Forall is_word (words s).
Proof.
  induction s as [|c s IH]; [constructor|].
  destruct (is_space c) eqn:Hc; [by rewrite words_space|].
  destruct (words_letter c s Hc) as (w & ws & Hw & H1 & H2 & H3).
  rewrite Hw. destruct s as [|d s].
  - destruct (H3 eq_refl) as [-> ->]. repeat constructor; [done|].
    simpl. by rewrite Hc.
  - destruct (is_space d) eqn:Hd.
    + destruct (H1 d s eq_refl Hd) as [-> ->]. constructor; [|done].
      split; [done|]. simpl. by rewrite Hc.
    + rewrite (H2 d s eq_refl Hd) in IH.
      apply List.Forall_cons_iff in IH as [[Hn Hf] Hws].
      constructor; [|done]. split; [done|]. simpl. by rewrite Hc, Hf.
Qed.

Lemma append_cons (c : ascii) (a b : string) :
  (String c a ++ b)%string = String c (a ++ b)%string.
Proof. reflexivity. Qed.

Lemma append_nil_l (b : string) : (EmptyString ++ b)%string = b.
Proof. reflexivity. Qed.

Lemma remove_spaces_app (a b : string) :
  remove_spaces (a ++ b)%string = (remove_spaces a ++ remove_spaces b)%string.
Proof.
  induction a as [|c a IH]; [done|].
  rewrite append_cons. simpl.
  destruct (is_space c); [done|]. by rewrite append_cons, IH.
Qed.

Lemma string_app_nil (s : string) : (s ++ "")%string = s.
Proof.
  induction s as [|c s IH]; [done|]. by rewrite append_cons, IH.
Qed.

Lemma remove_spaces_join (w : string) (ws : list string) :
  remove_spaces (Text.join " " (w :: ws))
  = (remove_spaces w ++ remove_spaces (Text.join " " ws))%string.
Proof.
  destruct ws as [|w' ws].
  - change (remove_spaces w = (remove_spaces w ++ "")%string).
    symmetry. apply string_app_nil.
  - change (Text.join " " (w :: w' :: ws))
      with (w ++ String " " (Text.join " " (w' :: ws)))%string.
    rewrite remove_spaces_app. reflexivity.
Qed.

Lemma remove_spaces_letter (c : ascii) (w : string) :
  is_space c = false -> remove_spaces (String c w) = String c (remove_spaces w).
Proof. intros H. simpl. by rewrite H. Qed.

Lemma remove_spaces_words (s : string) :
  remove_spaces (Text.join " " (words s)) = remove_spaces s.
Proof.
  induction s as [|c s IH]; [done|].
  destruct (is_space c) eqn:Hc.
  - rewrite words_space by done. simpl. by rewrite Hc.
  - destruct (words_letter c s Hc) as (w & ws & Hw & H1 & H2 & H3).
    rewrite Hw, remove_spaces_join, !remove_spaces_letter by done.
    rewrite append_cons. f_equal.
    destruct s as [|d s].
    + by destruct (H3 eq_refl) as [-> ->].
    + destruct (is_space d) eqn:Hd.
      * destruct (H1 d s eq_refl Hd) as [-> ->]. exact IH.
      * rewrite (H2 d s eq_refl Hd), remove_spaces_join in IH. exact IH.
Qed.

Lemma space_free_remove (w : string) :
  space_free w = true -> remove_spaces w = w.
Proof.
  induction w as [|c w IH]; simpl; [done|].
  destruct (is_space c); simpl; [done|]. intros H. by rewrite IH.
Qed.

Lemma words_word (w : string) : is_word w -> words w = [w].
Proof.
  intros [Hn Hf]. induction w as [|c w IH]; [done|].
  simpl in Hf. apply andb_prop in Hf as [Hc Hf].
  apply negb_true_iff in Hc.
  destruct (words_letter c w Hc) as (w0 & ws & Hw & H1 & H2 & H3).
  rewrite Hw. destruct w as [|d w].
  - by destruct (H3 eq_refl) as [-> ->].
  - pose proof Hf as Hf'. simpl in Hf'. apply andb_prop in Hf' as [Hd _].
    apply negb_true_iff in Hd.
    rewrite IH in H2 by done. by injection (H2 d w eq_refl Hd) as <- <-.
Qed.

Lemma words_word_space (w rest : string) :
  is_word w -> words (w ++ String " " rest)%string = w :: words rest.
Proof.
  intros [Hn Hf]. induction w as [|c w IH]; [done|].
  simpl in Hf. apply andb_prop in Hf as [Hc Hf].
  apply negb_true_iff in Hc.
  change (String c w ++ String " " rest)%string
    with (String c (w ++ String " " rest)%string).
  destruct (words_letter c (w ++ String " " rest)%string Hc)
    as (w0 & ws & Hw & H1 & H2 & H3).
  rewrite Hw. destruct w as [|d w].
  - by destruct (H1 " "%char rest eq_refl eq_refl) as [-> ->].
  - pose proof Hf as Hf'. simpl in Hf'. apply andb_prop in Hf' as [Hd _].
    apply negb_true_iff in Hd.
    rewrite IH in H2 by done.
    by injection (H2 d (w ++ String " " rest)%string eq_refl Hd) as <- <-.
Qed.

Lemma words_join (ws : list string) :
  List.Forall is_word ws -> words (Text.join " " ws) = ws.
Proof.
  induction 1 as [|w ws Hw Hws IH]; [done|].
  destruct ws as [|w' ws]; [by apply words_word|].
  change (Text.join " " (w :: w' :: ws))
    with (w ++ String " " (Text.join " " (w' :: ws)))%string.
  by rewrite words_word_space, IH.
Qed.

Lemma tidy_word (b : bool) (w rest : string) :
  is_word w -> tidy b (w ++ rest)%string = tidy false rest.
Proof.
  intros [Hn Hf]. revert b. induction w as [|c w IH]; intros b; [done|].
  simpl in Hf. apply andb_prop in Hf as [Hc Hf].
  apply negb_true_iff in Hc. simpl. rewrite Hc.
  destruct w as [|d w]; [done|]. by apply IH.
Qed.

Lemma tidy_join (ws : list string) :
  List.Forall is_word ws -> ws <> [] -> tidy true (Text.join " " ws) = true.
Proof.
  induction 1 as [|w ws Hw Hws IH]; [done|]. intros _.
  destruct ws as [|w' ws].
  - simpl. rewrite <- (string_app_nil w). by rewrite tidy_word.
  - change (Text.join " " (w :: w' :: ws))
      with (w ++ String " " (Text.join " " (w' :: ws)))%string.
    rewrite tidy_word by done. simpl. by apply IH.
Qed.

Lemma join_nil_inv (ws : list string) :
  List.Forall is_word ws -> Text.join " " ws = EmptyString -> ws = [].
Proof.
  intros H. destruct H as [|w ws [Hn _] _]; [done|].
  destruct w as [|c w]; [done|]. destruct ws; simpl; discriminate.
Qed.

Lemma words_nil (s : string) : words s = [] <-> remove_spaces s = EmptyString.
Proof.
  split; intros H.
  - by rewrite <- remove_spaces_words, H.
  - induction s as [|c s IH]; [done|].
    simpl in H. destruct (is_space c) eqn:Hc; [|discriminate].
    rewrite words_space by done. by apply IH.
Qed.

Lemma clean_text_tidy (text : option string) :
  well_spaced (clean_text text) = true.
Proof.
  destruct text as [s|]; [|done]. unfold clean_text, well_spaced.
  pose proof (words_are_words s) as Hw.
  destruct (Text.join " " (words s)) eqn:E; [done|]. rewrite <- E.
  apply tidy_join; [done|]. intros Hn. by rewrite Hn in E.
Qed.

(** X14: a cleaned text holds no whitespace but single spaces between
    words: none at the start, none at the end, no two in a row, and no
    tab or line break; cleaning it again changes nothing. *)
Theorem clean_text_well_spaced (text : option string) :
  well_spaced (clean_text text) = true /\
  clean_text (Some (clean_text text)) = clean_text text.
Proof.
  split; [apply clean_text_tidy|].
  destruct text as [s|]; [|done]. unfold clean_text.
  by rewrite words_join by apply words_are_words.
Qed.

Lemma split_length (sep : ascii) (s : string) :
  List.length (Text.split sep s) = S (count_char sep s).
Proof.
  induction s as [|c s IH]; simpl; [done|].
  destruct (Ascii.eqb c sep); simpl; [by rewrite IH|].
  destruct (Text.split sep s); simpl in *; lia.
Qed.

Lemma count_char_remove_spaces (c : ascii) (s : string) :
  is_space c = false -> count_char c (remove_spaces s) = count_char c s.
Proof.
  intros Hc. induction s as [|d s IH]; simpl; [done|].
  destruct (is_space d) eqn:Hd; simpl; rewrite IH; [|done].
  destruct (Ascii.eqb d c) eqn:E; [|done].
  apply Ascii.eqb_eq in E. congruence.
Qed.

(** X15: cleaning removes and inserts whitespace only: the other
    characters stay, in their order, so the text keeps its '|'-separated
    entries one for one. *)
Theorem clean_text_keeps_content (s : string) :
  remove_spaces (clean_text (Some s)) = remove_spaces s /\
  List.length (Text.tokenizer (clean_text (Some s)))
  = List.length (Text.tokenizer s).
Proof.
  assert (remove_spaces (clean_text (Some s)) = remove_spaces s) as H
    by apply remove_spaces_words.
  split; [done|]. unfold Text.tokenizer. rewrite !split_length. f_equal.
  rewrite <- (count_char_remove_spaces Text.pipe (clean_text (Some s)))
    by done.
  rewrite H. by apply count_char_remove_spaces.
Qed.

(** X16: the cleaned text is empty exactly for a missing value and for a
    text of whitespace only. *)
Theorem clean_text_empty (text : option string) :
  clean_text text = EmptyString <->
  text = None \/ exists s, text = Some s /\ remove_spaces s = EmptyString.
Proof.
  destruct text as [s|]; simpl.
  - split.
    + intros H. right. exists s. split; [done|].
      by rewrite <- remove_spaces_words, H.
    + intros [|(s' & [= <-] & H)]; [done|].
      apply words_nil in H. by rewrite H.
  - split; [by left|done].
Qed.

(** ** load_data *)

Section LoadFacts.

Variable to_datetime_year : string -> option Z.

Abbreviation movie_of_row := (Database.movie_of_row to_datetime_year).
Abbreviation movies_of_rows := (Database.movies_of_rows to_datetime_year).
Abbreviation load_data := (Database.load_data to_datetime_year).

Lemma movie_of_row_Loaded (row : Row) (m : Movie) :
  movie_of_row row = Loaded m <->
  to_datetime_year (date_of_row row) = Some (release_year m) /\
  m = {| title := original_title row;
         genres := clean_text (row_genres row);
         keywords := clean_text (row_keywords row);
         companies := clean_text (row_production_companies row);
         popularity := Database.notna_or 0 (row_popularity row);
         release_year := release_year m;
         runtime := Database.notna_or 0 (row_runtime row);
         cast := clean_text (row_cast row);
         vote_count := Database.notna_or 0%Z (row_vote_count row);
         vote_average := Database.notna_or 0 (row_vote_average row) |}.
Proof.
  unfold Database.movie_of_row, Database.Movie_init, date_of_row.
  destruct (to_datetime_year _) as [yr|]; split.
  - intros [= <-]. simpl. done.
  - intros [[= ->] ->]. done.
  - discriminate.
  - intros [? _]. discriminate.
Qed.

Lemma movie_of_row_Failed (row : Row) (e : load_exn) :
  movie_of_row row = Failed e <->
  to_datetime_year (date_of_row row) = None /\
  e = DateParseError (date_of_row row).
Proof.
  unfold Database.movie_of_row, Database.Movie_init, date_of_row.
  destruct (to_datetime_year _) as [yr|]; split.
  - discriminate.
  - intros [? _]. discriminate.
  - by intros [= <-].
  - by intros [_ ->].
Qed.

Lemma movies_of_rows_Loaded (rows : list Row) (ms : list Movie) :
  movies_of_rows rows = Loaded ms <->
  Forall2 (fun row m => movie_of_row row = Loaded m) rows ms.
Proof.
  revert ms. induction rows as [|row rows IH]; intros ms; simpl.
  - split.
    + intros [= <-]. constructor.
    + intros H. by apply Forall2_nil_inv_l in H as ->.
  - destruct (movie_of_row row) as [m|e] eqn:E.
    + destruct (movies_of_rows rows) as [ms'|e'] eqn:E'.
      * split.
        -- intros [= <-]. constructor; [done|]. by apply IH.
        -- intros H. apply Forall2_cons_inv_l in H as (m' & ms'' & H1 & H2 & ->).
           apply IH in H2. congruence.
      * split; [discriminate|].
        intros H. apply Forall2_cons_inv_l in H as (m' & ms'' & H1 & H2 & ->).
        apply IH in H2. discriminate.
    + split; [discriminate|].
      intros H. apply Forall2_cons_inv_l in H as (m' & ms'' & H1 & H2 & ->).
      congruence.
Qed.

Lemma movies_of_rows_Failed (rows : list Row) (e : load_exn) :
  movies_of_rows rows = Failed e <->
  exists pre row post,
    rows = pre ++ row :: post /\
    List.Forall (fun r => is_Some (to_datetime_year (date_of_row r))) pre /\
    to_datetime_year (date_of_row row) = None /\
    e = DateParseError (date_of_row row).
Proof.
  induction rows as [|row rows IH]; simpl.
  - split; [discriminate|]. intros (pre & r & post & H & _).
    by destruct pre.
  - destruct (movie_of_row row) as [m|e0] eqn:E.
    + apply movie_of_row_Loaded in E as [Ey _].
      destruct (movies_of_rows rows) as [ms'|e'] eqn:E'.
      * split; [discriminate|].
        intros (pre & r & post & H & Hpre & Hr & He).
        destruct pre as [|p pre]; simpl in H; injection H as -> ->.
        -- congruence.
        -- apply List.Forall_cons_iff in Hpre as [_ Hpre].
           assert (@Loaded (list Movie) ms' = Failed e) as C
             by (apply IH; eauto 10). discriminate.
      * split.
        -- intros [= <-]. destruct (proj1 IH eq_refl)
             as (pre & r & post & -> & Hpre & Hr & He).
           exists (row :: pre), r, post. split_and!; try done.
           constructor; [by rewrite Ey|done].
        -- intros (pre & r & post & H & Hpre & Hr & He).
           destruct pre as [|p pre]; simpl in H; injection H as -> ->.
           ++ congruence.
           ++ apply List.Forall_cons_iff in Hpre as [_ Hpre].
              assert (@Failed (list Movie) e' = Failed e) as C
                by (apply IH; eauto 10). done.
    + apply movie_of_row_Failed in E as [En ->]. split.
      * intros [= <-]. exists [], row, rows. split_and!; try done.
      * intros (pre & r & post & H & Hpre & Hr & He).
        destruct pre as [|p pre]; simpl in H; injection H as -> ->.
        -- by rewrite He.
        -- apply List.Forall_cons_iff in Hpre as [[? Hp] _]. congruence.
Qed.

End LoadFacts.

(** X17: a load that returns has read a data frame and made one movie per
    row, in row order, each titled by the row's [original_title]; the list
    is what the instance then holds, and the path is unchanged. *)
Theorem load_data_returns (to_year : string -> option Z)
  (fs : string -> file) (self : Database.DatabaseInterface)
  (ms : list Movie) :
  snd (Database.load_data to_year fs self) = Loaded ms ->
  exists rows,
    fs (Database.data_source self) = Frame rows /\
    List.length ms = List.length rows /\
    map title ms = map original_title rows /\
    Database.movies (fst (Database.load_data to_year fs self)) = ms /\
    Database.data_source (fst (Database.load_data to_year fs self))
    = Database.data_source self.
Proof.
  unfold Database.load_data.
  destruct (fs (Database.data_source self)) as [| |rows|c]; try discriminate.
  destruct (Database.movies_of_rows to_year rows) as [ms'|e] eqn:E;
    [|discriminate].
  simpl. intros [= <-]. exists rows. split_and!; try done.
  - apply movies_of_rows_Loaded in E. symmetry. by eapply Forall2_length.
  - apply movies_of_rows_Loaded in E.
    induction E as [|row m rows ms' Hm _ IH]; simpl; [done|].
    apply movie_of_row_Loaded in Hm as [_ ->]. simpl. by rewrite IH.
Qed.

Lemma sample_load :
  snd (Database.load_data iso_year sample_fs (Database.new "movies.csv"))
  = Loaded sample_movies.
Proof. reflexivity. Qed.

Lemma load_data_returns_witness :
  exists rows,
    sample_fs (Database.data_source (Database.new "movies.csv"))
    = Frame rows /\
    List.length
      sample_movies = List.length rows /\
    map title
      sample_movies = map original_title rows /\
    Database.movies
      (fst (Database.load_data iso_year sample_fs
              (Database.new "movies.csv")))
    = sample_movies /\
    Database.data_source
      (fst (Database.load_data iso_year sample_fs
              (Database.new "movies.csv")))
    = Database.data_source (Database.new "movies.csv").
Proof.
  apply (load_data_returns iso_year sample_fs (Database.new "movies.csv")).
  apply sample_load.
Defined.




(** The file of the test with the invalid date: nothing is stored, though
    the first row is fine. *)
Example broken_load :
  Database.load_data iso_year sample_fs (Database.new "broken.csv")
  = (Database.new "broken.csv", Failed (DateParseError "invalid_date")).
Proof. reflexivity. Qed.

Example missing_load :
  Database.load_data iso_year sample_fs (Database.new "nowhere.csv")
  = (Database.new "nowhere.csv",
     Failed (FileNotFoundError "File nowhere.csv not found.")).
Proof. reflexivity. Qed.

Example incomplete_load :
  Database.load_data iso_year sample_fs (Database.new "no_cast.csv")
  = (Database.new "no_cast.csv", Failed (KeyError "cast")).
Proof. reflexivity. Qed.

(** X20: a load returns exactly when the file holds a readable frame
    that has the ten columns (or no row at all) and every row of which
    has a date the reader parses. *)
Theorem load_data_succeeds (to_year : string -> option Z)
  (fs : string -> file) (self : Database.DatabaseInterface) :
  (exists ms, snd (Database.load_data to_year fs self) = Loaded ms) <->
  exists rows,
    fs (Database.data_source self) = Frame rows /\
    List.Forall (fun r => is_Some (to_year (date_of_row r))) rows.
Proof.
  unfold Database.load_data.
  destruct (fs (Database.data_source self)) as [| |rows|c] eqn:F;
    [split; [by intros [? ?]|by intros (? & ? & _)]..| |
     split; [by intros [? ?]|by intros (? & ? & _)]].
  - destruct (Database.movies_of_rows to_year rows) as [ms|e] eqn:E; simpl.
    + split; [|eauto]. intros _. exists rows. split; [done|].
      apply movies_of_rows_Loaded in E. clear F.
      induction E as [|row m rows ms Hm _ IH]; [constructor|].
      constructor; [|done].
      apply movie_of_row_Loaded in Hm as [Hy _]. by rewrite Hy.
    + split; [by intros [? ?]|].
      intros (rows' & [= <-] & Hall).
      apply movies_of_rows_Failed in E
        as (pre & row & post & -> & _ & Hr & _).
      apply List.Forall_app in Hall as [_ Hall].
      apply List.Forall_cons_iff in Hall as [[? Hs] _]. congruence.
Qed.

(** X21: a recommender made from a loaded list is consistent, and the
    keys of its index are exactly the titles of the rows. *)
Theorem loaded_catalog_index (to_year : string -> option Z)
  (fs : string -> file) (self : Database.DatabaseInterface)
  (sw : list string) (rows : list Row) (ms : list Movie) :
  fs (Database.data_source self) = Frame rows ->
  snd (Database.load_data to_year fs self) = Loaded ms ->
  consistent sw (init ms) /\
  (forall t, is_Some (movie_indices (init ms) !! t) <->
             In t (map original_title rows)) /\
  (forall t i, movie_indices (init ms) !! t = Some i ->
               original_title <$> rows !! i = Some t).
Proof.
  intros F H.
  assert (Forall2 (fun row m => title m = original_title row) rows ms) as Ht.
  { unfold Database.load_data in H. rewrite F in H.
    destruct (Database.movies_of_rows to_year rows) as [ms'|e] eqn:E;
      [|discriminate].
    simpl in H. injection H as <-. apply movies_of_rows_Loaded in E.
    eapply Forall2_impl; [exact E|]. intros row m Hm.
    by apply movie_of_row_Loaded in Hm as [_ ->]. }
  assert (map title ms = map original_title rows) as Hmap.
  { clear -Ht. induction Ht as [|row m rows ms Hm _ IH]; simpl; [done|].
    by f_equal. }
  split_and!.
  - apply init_consistent.
  - intros t. rewrite <- Hmap, <- not_eq_None_Some.
    rewrite (title_index_None ms t). split; [|tauto].
    intros Hn. destruct (in_dec String.string_dec t (map title ms)); tauto.
  - intros t i Hi. apply title_index_Some in Hi as [(m & Hm & <-) _].
    destruct (Forall2_lookup_r _ _ _ _ _ Ht Hm) as (row & Hrow & Hrt).
    rewrite Hrow. simpl. by rewrite Hrt.
Qed.

Lemma loaded_catalog_index_witness :
  consistent stop_words_sample (init sample_movies) /\
  (forall t, is_Some (movie_indices (init sample_movies) !! t) <->
             In t (map original_title [inception_row; sparse_row])) /\
  (forall t i, movie_indices (init sample_movies) !! t = Some i ->
               original_title <$> [inception_row; sparse_row] !! i = Some t).
Proof.
  apply (loaded_catalog_index iso_year sample_fs (Database.new "movies.csv")).
  - reflexivity.
  - apply sample_load.
Defined.

(** ** The menu loop *)

Section RunFacts.

Variable sw : list string.
Variable y : Z.
Variable int : string -> option Z.

Abbreviation run := (Menu.run sw y int).
Abbreviation read_choice := (Menu.read_choice int).

Lemma run_invalid (self : MovieRecommender) (line : string)
  (rest : list string) :
  read_choice line = Invalid ->
  run self (line :: rest)
  = (Menu.frontscreen ++ [Menu.choice_prompt; Menu.invalid_input]
       ++ fst (fst (run self rest)),
     snd (fst (run self rest)), snd (run self rest)).
Proof.
  intros H. simpl. rewrite H. by destruct (Menu.run sw y int self rest) as [[? ?] ?].
Qed.

Lemma run_quit (self : MovieRecommender) (line : string)
  (rest : list string) :
  read_choice line = Quit ->
  run self (line :: rest)
  = (Menu.frontscreen ++ [Menu.choice_prompt] ++ Menu.exit_screen, self, Exit).
Proof. intros H. simpl. by rewrite H. Qed.

Lemma run_recommend (self : MovieRecommender) (line movie : string)
  (rest : list string) :
  read_choice line = Recommend ->
  (forall e, snd (calculate_similarity sw y self movie) = Raise e ->
             exists msg, e = ValueError msg) ->
  run self (line :: movie :: rest)
  = (Menu.frontscreen ++ [Menu.choice_prompt; Menu.title_prompt]
       ++ round_output (snd (calculate_similarity sw y self movie))
       ++ fst (fst (run (fst (calculate_similarity sw y self movie)) rest)),
     snd (fst (run (fst (calculate_similarity sw y self movie)) rest)),
     snd (run (fst (calculate_similarity sw y self movie)) rest)).
Proof.
  intros H Hv. simpl. rewrite H.
  destruct (calculate_similarity sw y self movie) as [self' [recs|e]]; simpl.
  - by destruct (Menu.run sw y int self' rest) as [[? ?] ?].
  - destruct (Hv e eq_refl) as [msg ->].
    by destruct (Menu.run sw y int self' rest) as [[? ?] ?].
Qed.

(** [run] catches ValueError alone: another exception of the query ends
    the session. *)
Lemma run_uncaught (self : MovieRecommender) (line movie : string)
  (rest : list string) (e : exn) :
  read_choice line = Recommend ->
  snd (calculate_similarity sw y self movie) = Raise e ->
  (forall msg, e <> ValueError msg) ->
  run self (line :: movie :: rest)
  = (Menu.frontscreen ++ [Menu.choice_prompt; Menu.title_prompt],
     fst (calculate_similarity sw y self movie), Uncaught e).
Proof.
  intros H He Hv. simpl. rewrite H.
  destruct (calculate_similarity sw y self movie) as [self' r]; simpl in *.
  subst r. destruct e as [msg| |]; [by destruct (Hv msg)|done|done].
Qed.

(** On a consistent instance the one exception of a query that is no
    ValueError is the TypeError of [np.log1p], raised by the build for a
    vote count that fits no NumPy integer. *)
Lemma consistent_raises_ValueError (self : MovieRecommender) (t : string)
  (e : exn) :
  consistent sw self ->
  snd (calculate_similarity sw y self t) = Raise e ->
  (exists msg, e = ValueError msg) \/
  (e = TypeError /\ feature_matrix self = None /\
   ~ List.Forall (fun m => fits_integer (vote_count m)) (movies self)).
Proof.
  intros Hc He.
  destruct (consistent_raises sw y self t e Hc He)
    as [[-> _]|[[-> _]|(E & B & [-> | [-> | ->]])]];
    try (left; eexists; reflexivity).
  right. split_and!; [done..|].
  by eapply build_features_TypeError.
Qed.

Lemma run_ind_pairs (P : list string -> Prop) :
  P [] ->
  (forall line, P [line]) ->
  (forall line rest, P rest ->
     (forall movie rest', rest = movie :: rest' -> P rest') ->
     P (line :: rest)) ->
  forall inputs, P inputs.
Proof.
  intros Hnil Hone Hstep.
  assert (forall n inputs, (List.length inputs <= n)%nat -> P inputs) as H.
  { induction n as [|n IH]; intros inputs Hn.
    - destruct inputs; [done|simpl in Hn; lia].
    - destruct inputs as [|line rest]; [done|]. simpl in Hn.
      apply Hstep.
      + apply IH. lia.
      + intros movie rest' ->. apply IH. simpl in Hn. lia. }
  intros inputs. by apply (H (List.length inputs)).
Qed.

Lemma run_exit_prefix (inputs extra : list string) :
  forall self out final,
    run self inputs = (out, final, Exit) ->
    run self (inputs ++ extra) = (out, final, Exit).
Proof.
  induction inputs as [|line|line rest IH1 IH2] using run_ind_pairs;
    intros self out final.
  - discriminate.
  - simpl. destruct (read_choice line) eqn:C; simpl; try done; discriminate.
  - destruct (read_choice line) eqn:C.
    + destruct rest as [|movie rest']; [simpl; rewrite C; discriminate|].
      change ((line :: movie :: rest') ++ extra)
        with (line :: movie :: (rest' ++ extra)).
      simpl. rewrite C.
      destruct (calculate_similarity sw y self movie)
        as [self' [recs|[msg| |]]]; try discriminate.
      * destruct (Menu.run sw y int self' rest') as [[o f] e] eqn:R.
        intros [= <- <- ->].
        by rewrite (IH2 movie rest' eq_refl self' o f R).
      * destruct (Menu.run sw y int self' rest') as [[o f] e] eqn:R.
        intros [= <- <- ->].
        by rewrite (IH2 movie rest' eq_refl self' o f R).
    + change ((line :: rest) ++ extra) with (line :: (rest ++ extra)).
      by rewrite !run_quit.
    + change ((line :: rest) ++ extra) with (line :: (rest ++ extra)).
      rewrite !run_invalid by done.
      destruct (Menu.run sw y int self rest) as [[o f] e] eqn:R. simpl.
      intros [= <- <- ->]. by rewrite (IH1 self o f R).
Qed.

Lemma run_consistent_aux (inputs : list string) :
  forall self out final e,
    consistent sw self ->
    run self inputs = (out, final, e) ->
    (e = Exit \/ e = EOFError \/
     (e = Uncaught TypeError /\
      ~ List.Forall (fun m => fits_integer (vote_count m)) (movies self))) /\
    consistent sw final /\
    movies final = movies self /\
    movie_indices final = movie_indices self.
Proof.
  induction inputs as [|line|line rest IH1 IH2] using run_ind_pairs;
    intros self out final e Hc.
  - intros [= <- <- <-]. auto.
  - simpl. destruct (read_choice line); intros [= <- <- <-]; auto.
  - destruct (read_choice line) eqn:C.
    + destruct rest as [|movie rest'].
      { simpl. rewrite C. intros [= <- <- <-]. auto. }
      pose proof (calculate_similarity_consistent sw y self movie Hc) as Hc'.
      destruct (calculate_similarity_keeps sw y self movie) as [Hm Hi].
      assert ((forall e', snd (calculate_similarity sw y self movie) = Raise e'
                          -> exists msg, e' = ValueError msg) \/
              (snd (calculate_similarity sw y self movie) = Raise TypeError /\
               ~ List.Forall (fun m => fits_integer (vote_count m))
                   (movies self))) as [Hv|[Hr Hn]].
      { destruct (snd (calculate_similarity sw y self movie)) as [ts|e0] eqn:Q.
        - left. discriminate.
        - destruct (consistent_raises_ValueError self movie e0 Hc Q)
            as [Hv|(-> & _ & Hn)]; [|by right].
          left. by intros e' [= <-]. }
      * rewrite run_recommend by done.
        intros [= <- <- <-].
        destruct (Menu.run sw y int
                    (fst (calculate_similarity sw y self movie)) rest')
          as [[o f] e'] eqn:R.
        destruct (IH2 movie rest' eq_refl _ o f e' Hc' R)
          as (He & Hf & Hfm & Hfi).
        simpl. split_and!; [|done|congruence|congruence].
        rewrite Hm in He. done.
      * rewrite (run_uncaught self line movie rest' TypeError) by done.
        intros [= <- <- <-]. split_and!; auto.
    + rewrite run_quit by done. intros [= <- <- <-]. auto.
    + rewrite run_invalid by done.
      destruct (Menu.run sw y int self rest) as [[o f] e'] eqn:R. simpl.
      intros [= <- <- <-]. by apply (IH1 self o f e').
Qed.

Lemma run_no_query_aux (inputs : list string) :
  forall self out final e,
    List.Forall (fun line => read_choice line <> Recommend) inputs ->
    run self inputs = (out, final, e) ->
    final = self /\
    (e = Exit <-> List.Exists (fun line => read_choice line = Quit) inputs) /\
    (e = Exit \/ e = EOFError).
Proof.
  induction inputs as [|line rest IH]; intros self out final e Hall.
  - intros [= <- <- <-]. split_and!; [done| |auto].
    split; [discriminate|]. intros H. inversion H.
  - apply List.Forall_cons_iff in Hall as [Hl Hall].
    destruct (read_choice line) eqn:C; [done| |].
    + rewrite run_quit by done. intros [= <- <- <-].
      split_and!; [done| |auto]. split; [|done]. intros _. by left.
    + rewrite run_invalid by done.
      destruct (Menu.run sw y int self rest) as [[o f] e'] eqn:R. simpl.
      intros [= <- <- <-].
      destruct (IH self o f e' Hall R) as (Hf & He & Hee).
      split_and!; [done| |done].
      rewrite He. split; [by right|].
      intros H. inversion H as [? ? Hq|? ? Hq]; subst; [congruence|done].
Qed.

End RunFacts.

(** X22: once a session has ended by the exit choice, the lines typed
    after it are never read: with any further lines appended the session
    writes the same, leaves the same recommender and ends the same. *)
Theorem run_stops_at_exit (sw : list string) (y : Z)
  (int : string -> option Z) (self : MovieRecommender)
  (inputs extra : list string) :
  snd (Menu.run sw y int self inputs) = Exit ->
  Menu.run sw y int self (inputs ++ extra) = Menu.run sw y int self inputs.
Proof.
  destruct (Menu.run sw y int self inputs) as [[o f] e] eqn:R. simpl.
  intros ->. by apply run_exit_prefix.
Qed.

Lemma run_stops_at_exit_witness :
  Menu.run stop_words_sample 2024 int_ascii (init test_catalog)
    (["7"; "2"] ++ ["1"; "Inception"])
  = Menu.run stop_words_sample 2024 int_ascii (init test_catalog) ["7"; "2"].
Proof.
  apply (run_stops_at_exit stop_words_sample 2024 int_ascii
           (init test_catalog) ["7"; "2"]%string).
  reflexivity.
Defined.

(** X23: a session on a consistent recommender ends by the exit choice,
    by running out of input, or by the one exception of a query that
    [run] does not catch: the TypeError [np.log1p] raises in the build
    for a vote count that fits no NumPy integer.  When every vote count
    fits, the session ends by the exit choice or by running out of
    input.  The recommender it leaves is consistent and has the same
    movies and the same index. *)
Theorem run_endings (sw : list string) (y : Z)
  (int : string -> option Z) (self : MovieRecommender)
  (inputs : list string) :
  consistent sw self ->
  (snd (Menu.run sw y int self inputs) = Exit \/
   snd (Menu.run sw y int self inputs) = EOFError \/
   snd (Menu.run sw y int self inputs) = Uncaught TypeError) /\
  (List.Forall (fun m => fits_integer (vote_count m)) (movies self) ->
   snd (Menu.run sw y int self inputs) = Exit \/
   snd (Menu.run sw y int self inputs) = EOFError) /\
  consistent sw (snd (fst (Menu.run sw y int self inputs))) /\
  movies (snd (fst (Menu.run sw y int self inputs))) = movies self /\
  movie_indices (snd (fst (Menu.run sw y int self inputs)))
  = movie_indices self.
Proof.
  intros Hc.
  destruct (Menu.run sw y int self inputs) as [[o f] e] eqn:R. simpl.
  destruct (run_consistent_aux sw y int inputs self o f e Hc R)
    as (He & Hf & Hm & Hi).
  split_and!; try done.
  - destruct He as [?|[?|[? _]]]; auto.
  - intros F. destruct He as [?|[?|[_ Hn]]]; auto. done.
Qed.

Lemma run_endings_witness :
  (snd (Menu.run stop_words_sample 2024 int_ascii (init test_catalog)
          ["1"; "Inception"; "1"; "Nonexistent Movie"; "2"]) = Exit \/
   snd (Menu.run stop_words_sample 2024 int_ascii (init test_catalog)
          ["1"; "Inception"; "1"; "Nonexistent Movie"; "2"]) = EOFError \/
   snd (Menu.run stop_words_sample 2024 int_ascii (init test_catalog)
          ["1"; "Inception"; "1"; "Nonexistent Movie"; "2"])
   = Uncaught TypeError) /\
  (List.Forall (fun m => fits_integer (vote_count m))
     (movies (init test_catalog)) ->
   snd (Menu.run stop_words_sample 2024 int_ascii (init test_catalog)
          ["1"; "Inception"; "1"; "Nonexistent Movie"; "2"]) = Exit \/
   snd (Menu.run stop_words_sample 2024 int_ascii (init test_catalog)
          ["1"; "Inception"; "1"; "Nonexistent Movie"; "2"]) = EOFError) /\
  consistent stop_words_sample
    (snd (fst (Menu.run stop_words_sample 2024 int_ascii (init test_catalog)
                 ["1"; "Inception"; "1"; "Nonexistent Movie"; "2"]))) /\
  movies
    (snd (fst (Menu.run stop_words_sample 2024 int_ascii (init test_catalog)
                 ["1"; "Inception"; "1"; "Nonexistent Movie"; "2"])))
  = movies (init test_catalog) /\
  movie_indices
    (snd (fst (Menu.run stop_words_sample 2024 int_ascii (init test_catalog)
                 ["1"; "Inception"; "1"; "Nonexistent Movie"; "2"])))
  = movie_indices (init test_catalog).
Proof.
  apply (run_endings stop_words_sample 2024 int_ascii (init test_catalog)).
  apply init_consistent.
Defined.

(** X24: a session in which no line amounts to choice 1 never touches the
    recommender: it is left as it was, and the session ends by exit
    exactly when some line amounts to choice 2, otherwise by running out
    of input. *)
Theorem run_without_query (sw : list string) (y : Z)
  (int : string -> option Z) (self : MovieRecommender)
  (inputs : list string) :
  List.Forall (fun line => Menu.read_choice int line <> Recommend) inputs ->
  snd (fst (Menu.run sw y int self inputs)) = self /\
  (snd (Menu.run sw y int self inputs) = Exit <->
   List.Exists (fun line => Menu.read_choice int line = Quit) inputs) /\
  (snd (Menu.run sw y int self inputs) = Exit \/
   snd (Menu.run sw y int self inputs) = EOFError).
Proof.
  intros Hall.
  destruct (Menu.run sw y int self inputs) as [[o f] e] eqn:R. simpl.
  by apply (run_no_query_aux sw y int inputs self o f e).
Qed.

Lemma run_without_query_witness :
  snd (fst (Menu.run stop_words_sample 2024 int_ascii (init test_catalog)
              ["x"; "3"; " 2 "])) = init test_catalog /\
  (snd (Menu.run stop_words_sample 2024 int_ascii (init test_catalog)
          ["x"; "3"; " 2 "]) = Exit <->
   List.Exists (fun line => Menu.read_choice int_ascii line = Quit)
     ["x"; "3"; " 2 "]%string) /\
  (snd (Menu.run stop_words_sample 2024 int_ascii (init test_catalog)
          ["x"; "3"; " 2 "]) = Exit \/
   snd (Menu.run stop_words_sample 2024 int_ascii (init test_catalog)
          ["x"; "3"; " 2 "]) = EOFError).
Proof.
  apply (run_without_query stop_words_sample 2024 int_ascii
           (init test_catalog) ["x"; "3"; " 2 "]%string).
  repeat constructor; vm_compute; discriminate.
Defined.



Lemma recommendation_lines (start : nat) (recs : list string) (k : nat)
  (rec : string) :
  recs !! k = Some rec ->
  map (fun im => Print (decimal (fst im) ++ ". " ++ snd im)%string)
    (combine (seq start (List.length recs)) recs) !! k
  = Some (Print (decimal (start + k) ++ ". " ++ rec)%string).
Proof.
  revert start k. induction recs as [|r recs IH]; intros start [|k]; simpl;
    try discriminate.
  - intros [= ->]. by rewrite Nat.add_0_r.
  - intros H. rewrite (IH (S start) k H). by rewrite Nat.add_succ_r.
Qed.

(** X26: the recommendation screen is one heading and then one line per
    title, in the order given, each numbered from 1 in decimal. *)
Theorem recommendation_screen_lines (recs : list string) :
  List.length (Menu.recommendation_screen recs) = S (List.length recs) /\
  forall k rec,
    recs !! k = Some rec ->
    Menu.recommendation_screen recs !! S k
    = Some (Print (decimal (S k) ++ ". " ++ rec)%string).
Proof.
  split.
  - unfold Menu.recommendation_screen. simpl.
    by rewrite length_map, length_combine, length_seq, Nat.min_id.
  - intros k rec H. unfold Menu.recommendation_screen. simpl.
    by apply (recommendation_lines 1).
Qed.

Example recommendation_screen_example :
  Menu.recommendation_screen ["The Matrix"; "The Godfather"]%string
  = [ Print (LF ++ "We recommend the following movies:")%string;
      Print "1. The Matrix"; Print "2. The Godfather" ].
Proof. reflexivity. Qed.
